(** * Searchbar: debounced input and focus/alignment state

    A shallow embedding of [src/components/searchbar/searchbar.ts]
    (class [Searchbar]) together with the two platform services its methods
    call: the browser's timer table ([setTimeout] / [clearTimeout]) and the
    outputs of the component (event emitters, the registered change
    callback, calls on DOM elements), which are recorded in a time-stamped
    log.

    Time is a rational number of milliseconds.  A timer fires at its due
    time, never earlier.  The platform fixes no order between a timer that
    falls due and an external event of the same instant; [run] takes the
    timer first, and the statements about sequences of typing events ask
    for strict gaps, so that they do not rest on that choice. *)

From Stdlib Require Import QArith Qround ZArith List String Ascii Bool Lia Lqa.
From Stdlib Require Import DecimalString.
Import ListNotations.

Local Open Scope string_scope.
Local Open Scope list_scope.

(* ================================================================== *)
(** ** JavaScript values *)

Module Js.

(** The numbers a search value can hold are modelled by the integers and
    [NaN]; the handlers only look at their truthiness and at whether their
    decimal form is blank. *)
Inductive number : Type :=
| NaN
| Num (z : Z).

Inductive value : Type :=
| Undefined
| Null
| Boolean (b : bool)
| Number (n : number)
| Str (s : string).

(** [ToBoolean]: what [a && b] and a class binding test. *)
Definition truthy (v : value) : bool :=
  match v with
  | Undefined | Null => false
  | Boolean b => b
  | Number NaN => false
  | Number (Num z) => negb (Z.eqb z 0)
  | Str s => negb (String.eqb s "")
  end.

(** [v !== ''] *)
Definition strict_neq_empty (v : value) : bool :=
  match v with
  | Str s => negb (String.eqb s "")
  | _ => true
  end.

Definition number_toString (n : number) : string :=
  match n with
  | NaN => "NaN"
  | Num z => NilZero.string_of_int (Z.to_int z)
  end.

(** [v.toString()]; [undefined] and [null] have no such method and the
    call throws, which is [None] here. *)
Definition toString (v : value) : option string :=
  match v with
  | Undefined | Null => None
  | Boolean true => Some "true"
  | Boolean false => Some "false"
  | Number n => Some (number_toString n)
  | Str s => Some s
  end.

(** White space and line terminators among the code units below 256. *)
Definition is_space (c : ascii) : bool :=
  let n := nat_of_ascii c in
  ((9 <=? n) && (n <=? 13) || (n =? 32) || (n =? 160))%nat.

Fixpoint trimStart (s : string) : string :=
  match s with
  | EmptyString => EmptyString
  | String c r => if is_space c then trimStart r else s
  end.

Fixpoint trimEnd (s : string) : string :=
  match s with
  | EmptyString => EmptyString
  | String c r =>
      match trimEnd r with
      | EmptyString => if is_space c then EmptyString else String c EmptyString
      | r' => String c r'
      end
  end.

(** [String.prototype.trim] *)
Definition trim (s : string) : string := trimEnd (trimStart s).

(** [Math.round]: the nearest integer, halves towards plus infinity. *)
Definition Math_round (x : Q) : Z := Qfloor (x + (1 # 2)).

(** The conversion of an integer to a [long], the type the platform gives
    the [timeout] argument of [setTimeout]: reduced modulo 2^32 into the
    signed 32-bit range. *)
Definition to_long (z : Z) : Z := ((z + 2 ^ 31) mod 2 ^ 32 - 2 ^ 31)%Z.

End Js.

Import Js.

(* ================================================================== *)
(** ** Events, outputs and the component's fields *)

(** A DOM event; [target_value] is [ev.target.value]. *)
Record Event : Type := mkEvent {
  ev_id : nat;
  target_value : string
}.

Inductive Output : Type := IonInput | IonBlur | IonFocus | IonCancel | IonClear.

Inductive Ele : Type := InputEle | IconEle.

(** What a handler does to the outside world. *)
Inductive Effect : Type :=
| Emit (o : Output) (ev : Event)          (* this.ionX.emit(ev) *)
| CallOnChange (fn : nat) (v : value)     (* this.onChange(v), [fn] names the registered function *)
| ElementFocus                            (* this.inputEle.focus() *)
| RemoveAttributeStyle (e : Ele)          (* e.removeAttribute('style') *)
| AddElementLeft (placeholder : string).  (* the measuring and styling of addElementLeft *)

Record Searchbar : Type := mkSearchbar {
  _value : value;
  _tmr : option nat;
  _shouldBlur : bool;
  mode : option string;
  debounce : Q;
  placeholder : string;
  isFocused : option bool;
  shouldLeftAlign : value;
  onChange : nat;
  onTouched : nat
}.

(** A pending [setTimeout] of [inputChanged]: the closure captures [value]
    and [ev]; [this] is read when it runs. *)
Record Timer : Type := mkTimer {
  handle : nat;
  due : Q;
  captured_value : string;
  captured_ev : Event
}.

Record World : Type := mkWorld {
  self : Searchbar;
  now : Q;
  next_handle : nat;
  pending : list Timer;
  log : list (Q * Effect)
}.

Definition update (f : Searchbar -> Searchbar) (w : World) : World :=
  mkWorld (f (self w)) (now w) (next_handle w) (pending w) (log w).

Definition emit (e : Effect) (w : World) : World :=
  mkWorld (self w) (now w) (next_handle w) (pending w) (log w ++ [(now w, e)]).

Definition set_value (v : value) (s : Searchbar) : Searchbar :=
  mkSearchbar v (_tmr s) (_shouldBlur s) (mode s) (debounce s) (placeholder s)
    (isFocused s) (shouldLeftAlign s) (onChange s) (onTouched s).

Definition set_tmr (h : option nat) (s : Searchbar) : Searchbar :=
  mkSearchbar (_value s) h (_shouldBlur s) (mode s) (debounce s) (placeholder s)
    (isFocused s) (shouldLeftAlign s) (onChange s) (onTouched s).

Definition set_shouldBlur (b : bool) (s : Searchbar) : Searchbar :=
  mkSearchbar (_value s) (_tmr s) b (mode s) (debounce s) (placeholder s)
    (isFocused s) (shouldLeftAlign s) (onChange s) (onTouched s).

Definition set_mode (m : option string) (s : Searchbar) : Searchbar :=
  mkSearchbar (_value s) (_tmr s) (_shouldBlur s) m (debounce s) (placeholder s)
    (isFocused s) (shouldLeftAlign s) (onChange s) (onTouched s).

Definition set_debounce (d : Q) (s : Searchbar) : Searchbar :=
  mkSearchbar (_value s) (_tmr s) (_shouldBlur s) (mode s) d (placeholder s)
    (isFocused s) (shouldLeftAlign s) (onChange s) (onTouched s).

Definition set_placeholder (p : string) (s : Searchbar) : Searchbar :=
  mkSearchbar (_value s) (_tmr s) (_shouldBlur s) (mode s) (debounce s) p
    (isFocused s) (shouldLeftAlign s) (onChange s) (onTouched s).

Definition set_isFocused (b : option bool) (s : Searchbar) : Searchbar :=
  mkSearchbar (_value s) (_tmr s) (_shouldBlur s) (mode s) (debounce s) (placeholder s)
    b (shouldLeftAlign s) (onChange s) (onTouched s).

Definition set_shouldLeftAlign (v : value) (s : Searchbar) : Searchbar :=
  mkSearchbar (_value s) (_tmr s) (_shouldBlur s) (mode s) (debounce s) (placeholder s)
    (isFocused s) v (onChange s) (onTouched s).

Definition set_onChange (fn : nat) (s : Searchbar) : Searchbar :=
  mkSearchbar (_value s) (_tmr s) (_shouldBlur s) (mode s) (debounce s) (placeholder s)
    (isFocused s) (shouldLeftAlign s) fn (onTouched s).

Definition set_onTouched (fn : nat) (s : Searchbar) : Searchbar :=
  mkSearchbar (_value s) (_tmr s) (_shouldBlur s) (mode s) (debounce s) (placeholder s)
    (isFocused s) (shouldLeftAlign s) (onChange s) fn.

(* ================================================================== *)
(** ** The timer table *)

Module Timers.

(** [clearTimeout(h)]: nothing happens for [undefined] or for a handle
    that is no longer pending. *)
Definition clearTimeout (h : option nat) (w : World) : World :=
  match h with
  | None => w
  | Some n =>
      mkWorld (self w) (now w) (next_handle w)
        (filter (fun tm => negb (Nat.eqb (handle tm) n)) (pending w)) (log w)
  end.

(** [setTimeout(cb, delay)]: a fresh handle; the delay is kept as a signed
    32-bit integer, and a negative one counts as zero. *)
Definition setTimeout (value : string) (ev : Event) (delay : Z) (w : World)
  : nat * World :=
  let h := next_handle w in
  let tm := mkTimer h (now w + inject_Z (Z.max 0 (to_long delay))) value ev in
  (h, mkWorld (self w) (now w) (S h) (pending w ++ [tm]) (log w)).

(** [a] runs before [b]: earlier due time, then earlier registration. *)
Definition before (a b : Timer) : bool :=
  if Qle_bool (due a) (due b)
  then if Qle_bool (due b) (due a) then Nat.leb (handle a) (handle b) else true
  else false.

Fixpoint earliest (l : list Timer) : option Timer :=
  match l with
  | [] => None
  | tm :: r =>
      match earliest r with
      | None => Some tm
      | Some m => if before tm m then Some tm else Some m
      end
  end.

(** The timer to run next when the clock may move up to [t]. *)
Definition next_due (t : Q) (l : list Timer) : option Timer :=
  match earliest l with
  | Some tm => if Qle_bool (due tm) t then Some tm else None
  | None => None
  end.

Definition later (a b : Q) : Q := if Qle_bool a b then b else a.

End Timers.

Import Timers.

(* ================================================================== *)
(** ** The methods of [Searchbar] *)

(** Modelled from the spec: [isPresent] is imported from [util/util], which
    is not part of the sources at hand; the spec only speaks of a value
    being present or absent.  A value is present when it is neither
    [undefined] nor [null]. *)
Definition isPresent (v : value) : bool :=
  match v with
  | Undefined | Null => false
  | _ => true
  end.

(** [v && v.toString().trim() !== ''].  The right operand is evaluated only
    for a truthy [v], for which [toString] exists. *)
Definition valueAndNotBlank (v : value) : value :=
  if truthy v
  then match toString v with
       | Some s => Boolean (negb (String.eqb (trim s) ""))
       | None => Undefined
       end
  else v.

(** [addElementLeft]: measures the placeholder in the document and styles
    the two elements; recorded as one effect. *)
Definition addElementLeft (w : World) : World :=
  emit (AddElementLeft (placeholder (self w))) w.

(** [this.mode !== 'ios'] *)
Definition mode_is_not_ios (m : option string) : bool :=
  match m with
  | Some s => negb (String.eqb s "ios")
  | None => true
  end.

Definition setElementLeft (w : World) : World :=
  if mode_is_not_ios (mode (self w)) then w
  else if truthy (shouldLeftAlign (self w))
  then emit (RemoveAttributeStyle IconEle) (emit (RemoveAttributeStyle InputEle) w)
  else addElementLeft w.

(** [ngOnInit]; [config_mode] is [this._config.get('mode')].  The
    normalisation of [hideCancelButton] touches no field kept here. *)
Definition ngOnInit (config_mode : string) (w : World) : World :=
  let w := update (set_mode (Some config_mode)) w in
  update (set_shouldLeftAlign (valueAndNotBlank (_value (self w)))) w.

Definition ngAfterViewInit (w : World) : World := setElementLeft w.

(** The body of the arrow function handed to [setTimeout] by
    [inputChanged]. *)
Definition commit (value : string) (ev : Event) (w : World) : World :=
  let w := update (set_value (Str value)) w in
  let w := emit (CallOnChange (onChange (self w)) (_value (self w))) w in
  emit (Emit IonInput ev) w.

Definition inputChanged (ev : Event) (w : World) : World :=
  let value := target_value ev in
  let w := clearTimeout (_tmr (self w)) w in
  let '(h, w) := setTimeout value ev (Math_round (debounce (self w))) w in
  update (set_tmr (Some h)) w.

Definition inputFocused (ev : Event) (w : World) : World :=
  let w := emit (Emit IonFocus ev) w in
  let w := update (set_isFocused (Some true)) w in
  let w := update (set_shouldLeftAlign (Boolean true)) w in
  setElementLeft w.

Definition inputBlurred (ev : Event) (w : World) : World :=
  if negb (_shouldBlur (self w))
  then
    let w := emit ElementFocus w in
    update (set_shouldBlur true) w
  else
    let w := emit (Emit IonBlur ev) w in
    let w := update (set_isFocused (Some false)) w in
    let w := update (set_shouldLeftAlign (valueAndNotBlank (_value (self w)))) w in
    setElementLeft w.

Definition clearInput (ev : Event) (w : World) : World :=
  let w := emit (Emit IonClear ev) w in
  let w :=
    if isPresent (_value (self w)) && strict_neq_empty (_value (self w))
    then
      let w := update (set_value (Str "")) w in
      let w := emit (CallOnChange (onChange (self w)) (_value (self w))) w in
      emit (Emit IonInput ev) w
    else w in
  update (set_shouldBlur false) w.

Definition cancelSearchbar (ev : Event) (w : World) : World :=
  let w := emit (Emit IonCancel ev) w in
  let w := clearInput ev w in
  update (set_shouldBlur true) w.

Definition writeValue (val : value) (w : World) : World :=
  update (set_value val) w.

Definition registerOnChange (fn : nat) (w : World) : World :=
  update (set_onChange fn) w.

Definition registerOnTouched (fn : nat) (w : World) : World :=
  update (set_onTouched fn) w.

(** The class declares no [ngOnDestroy]; the framework calls that hook only
    where a component has one. *)
Definition ngOnDestroy : option (World -> World) := None.

Definition destroy (w : World) : World :=
  match ngOnDestroy with
  | Some hook => hook w
  | None => w
  end.

(* ================================================================== *)
(** ** The event loop *)

(** Running one due timer: the clock reaches its due time, the timer leaves
    the table, its callback runs. *)
Definition fire (tm : Timer) (w : World) : World :=
  let w := mkWorld (self w) (later (now w) (due tm)) (next_handle w)
             (filter (fun x => negb (Nat.eqb (handle x) (handle tm))) (pending w))
             (log w) in
  commit (captured_value tm) (captured_ev tm) w.

Fixpoint run_timers (fuel : nat) (t : Q) (w : World) : World :=
  match fuel with
  | O => w
  | S k =>
      match next_due t (pending w) with
      | Some tm => run_timers k t (fire tm w)
      | None => w
      end
  end.

(** Let the clock reach [t], running every timer that falls due on the way.
    The callback schedules nothing, so one round per pending timer is
    enough ([advance_nothing_due] below). *)
Definition advance (t : Q) (w : World) : World :=
  let w := run_timers (List.length (pending w)) t w in
  mkWorld (self w) (later (now w) t) (next_handle w) (pending w) (log w).

(** What can reach the component from outside. *)
Inductive Action : Type :=
| InputChanged (ev : Event)
| InputFocused (ev : Event)
| InputBlurred (ev : Event)
| ClearInput (ev : Event)
| CancelSearchbar (ev : Event)
| WriteValue (val : value)
| SetValue (val : value)        (* the [value] setter, and the template's two-way binding of [_value] *)
| SetDebounce (d : Q)
| SetPlaceholder (p : string)
| RegisterOnChange (fn : nat)
| RegisterOnTouched (fn : nat)
| Destroy.

Definition step (a : Action) (w : World) : World :=
  match a with
  | InputChanged ev => inputChanged ev w
  | InputFocused ev => inputFocused ev w
  | InputBlurred ev => inputBlurred ev w
  | ClearInput ev => clearInput ev w
  | CancelSearchbar ev => cancelSearchbar ev w
  | WriteValue v => writeValue v w
  | SetValue v => update (set_value v) w
  | SetDebounce d => update (set_debounce d) w
  | SetPlaceholder p => update (set_placeholder p) w
  | RegisterOnChange fn => registerOnChange fn w
  | RegisterOnTouched fn => registerOnTouched fn w
  | Destroy => destroy w
  end.

(** A schedule is a list of actions with the times at which they arrive. *)
Definition run (sched : list (Q * Action)) (w : World) : World :=
  fold_left (fun w ta => step (snd ta) (advance (fst ta) w)) sched w.

(** The field initialisers of the class. *)
Definition new_Searchbar : Searchbar :=
  mkSearchbar (Str "") None true None (250 # 1) "Search" None Undefined 0 0.

Definition new_World : World := mkWorld new_Searchbar 0 1 [] [].

(** The typing events of a burst. *)
Definition typing (burst : list (Q * Event)) : list (Q * Action) :=
  map (fun te => (fst te, InputChanged (snd te))) burst.

(** The commits recorded in a log: the calls of the change callback. *)
Definition is_commit (e : Q * Effect) : bool :=
  match snd e with
  | CallOnChange _ _ => true
  | _ => false
  end.

Definition is_emit (o : Output) (e : Q * Effect) : bool :=
  match snd e with
  | Emit IonInput _ => match o with IonInput => true | _ => false end
  | Emit IonBlur _ => match o with IonBlur => true | _ => false end
  | Emit IonFocus _ => match o with IonFocus => true | _ => false end
  | Emit IonCancel _ => match o with IonCancel => true | _ => false end
  | Emit IonClear _ => match o with IonClear => true | _ => false end
  | _ => false
  end.

Definition count (p : Q * Effect -> bool) (l : list (Q * Effect)) : nat :=
  List.length (filter p l).


(** The host's bindings of the inputs that matter here, and the mounted
    component.  Unbound inputs keep the field initialisers. *)
Record Inputs : Type := mkInputs {
  in_value : value;
  in_debounce : Q;
  in_placeholder : string
}.

Definition default_inputs : Inputs := mkInputs (Str "") (250 # 1) "Search".

Definition bind (i : Inputs) (w : World) : World :=
  update (set_placeholder (in_placeholder i))
    (update (set_debounce (in_debounce i))
       (update (set_value (in_value i)) w)).

(** Construction, the inputs bound by the host, then the two lifecycle
    hooks. *)
Definition mount (config_mode : string) (i : Inputs) : World :=
  ngAfterViewInit (ngOnInit config_mode (bind i new_World)).

(** The states the component can be in: mounted, then any interleaving of
    actions and of the passing of time. *)
Inductive reachable : World -> Prop :=
| reach_mount : forall m i, reachable (mount m i)
| reach_step : forall a w, reachable w -> reachable (step a w)
| reach_advance : forall t w, reachable w -> reachable (advance t w).

(** The delay [inputChanged] asks for, as the timer table applies it. *)
Definition delay (w : World) : Q :=
  inject_Z (Z.max 0 (to_long (Math_round (debounce (self w))))).

(** The rounded [debounce] fits the signed 32-bit integer in which the
    platform keeps a timer's delay. *)
Definition timeout_in_range (w : World) : Prop :=
  (- 2 ^ 31 <= Math_round (debounce (self w)) < 2 ^ 31)%Z.

(** The log entries [w'] has beyond those of [w]. *)
Definition added (w w' : World) : list (Q * Effect) :=
  skipn (List.length (log w)) (log w').

(** The spec's reading of the alignment after a blur: the value is present
    and its trimmed string form is not empty. *)
Definition present_and_not_blank (v : value) : bool :=
  isPresent v &&
  match toString v with
  | Some s => negb (String.eqb (trim s) "")
  | None => false
  end.

(** The spec's alignment invariant: focused, or unfocused with a value whose
    trimmed string form is not empty. *)
Definition focused_or_not_blank (s : Searchbar) : bool :=
  match isFocused s with
  | Some true => true
  | _ => match toString (_value s) with
         | Some str => negb (String.eqb (trim str) "")
         | None => false
         end
  end.

(** The log entries [setElementLeft] writes at time [t] for a component in
    state [s]. *)
Definition alignment_effects (t : Q) (s : Searchbar) : list (Q * Effect) :=
  if mode_is_not_ios (mode s) then []
  else if truthy (shouldLeftAlign s)
  then [(t, RemoveAttributeStyle InputEle); (t, RemoveAttributeStyle IconEle)]
  else [(t, AddElementLeft (placeholder s))].

Definition a_click : Event := mkEvent 7 "".

Definition key (n : nat) (s : string) : Event := mkEvent n s.

(** A mounted component into which the form has written [v]. *)
Definition holding (v : value) : World :=
  writeValue v (mount "md" default_inputs).

(** The shape of the timer table the component keeps: at most one timer,
    the one [_tmr] names, with a handle already handed out. *)
Definition timer_inv (w : World) : Prop :=
  match pending w with
  | [] => True
  | [tm] => _tmr (self w) = Some (handle tm) /\ (handle tm < next_handle w)%nat
  | _ => False
  end.

(** Consecutive events less than [d] apart, the first one not before [t]. *)
Fixpoint spaced (d : Q) (t : Q) (rest : list (Q * Event)) : Prop :=
  match rest with
  | [] => True
  | (t', _) :: r => t <= t' /\ t' - t < d /\ spaced d t' r
  end.

(* ================================================================== *)
(** ** The rest of the class *)

(** The inputs read by the [_searchbarInput] setter.  [autocomplete] and
    [autocorrect] are declared without initialiser, so they are [undefined]
    ([None]) unless the host binds them. *)
Record Attributes : Type := mkAttributes {
  autocomplete : option string;
  autocorrect : option string;
  spellcheck : value;
  type : string
}.

(** The injected configuration service ([config/config], outside the
    sources at hand), taken as a parameter: [get key fallback] and
    [getBoolean key fallback]. *)
Record Config : Type := mkConfig {
  get : string -> value -> value;
  getBoolean : string -> bool -> bool
}.

(** [this.inputEle.setAttribute(name, v)] *)
Inductive AttrCall : Type :=
| SetAttribute (name : string) (v : value).

(** [a === s] for a field that holds a string or [undefined]. *)
Definition is_string (a : option string) (s : string) : bool :=
  match a with
  | Some x => String.eqb x s
  | None => false
  end.

(** [v === s] and [v === true] for a field of type [string|boolean]. *)
Definition strict_eq_string (v : value) (s : string) : bool :=
  match v with
  | Str x => String.eqb x s
  | _ => false
  end.

Definition strict_eq_true (v : value) : bool :=
  match v with
  | Boolean true => true
  | _ => false
  end.

(** The [_searchbarInput] setter: the four [setAttribute] calls, in order. *)
Definition _searchbarInput (config : Config) (a : Attributes) : list AttrCall :=
  let autoComplete :=
    if is_string (autocomplete a) "" || is_string (autocomplete a) "on"
    then Str "on" else get config "autocomplete" (Str "off") in
  let autoCorrect :=
    if is_string (autocorrect a) "" || is_string (autocorrect a) "on"
    then Str "on" else get config "autocorrect" (Str "off") in
  let spellCheck :=
    if strict_eq_string (spellcheck a) "" || strict_eq_string (spellcheck a) "true"
       || strict_eq_true (spellcheck a)
    then true else getBoolean config "spellcheck" false in
  [SetAttribute "autocomplete" autoComplete;
   SetAttribute "autocorrect" autoCorrect;
   SetAttribute "spellcheck" (Boolean spellCheck);
   SetAttribute "type" (Str (type a))].

(** The value an attribute ends up with: the last call that names it. *)
Fixpoint attribute (name : string) (calls : list AttrCall) : option value :=
  match calls with
  | [] => None
  | SetAttribute n v :: r =>
      match attribute name r with
      | Some v' => Some v'
      | None => if String.eqb n name then Some v else None
      end
  end.

(** The [hideCancelButton] part of [ngOnInit]: a string is replaced by a
    boolean, anything else is kept. *)
Definition ngOnInit_hideCancelButton (hideCancelButton : value) : value :=
  match hideCancelButton with
  | Str s => Boolean (String.eqb s "" || String.eqb s "true")
  | _ => hideCancelButton
  end.

(** Styling of the two elements, as opposed to notifications. *)
Definition is_style (e : Q * Effect) : bool :=
  match snd e with
  | RemoveAttributeStyle _ | AddElementLeft _ => true
  | _ => false
  end.



(** The actions that can lead to an input-changed notification. *)
Definition may_emit_input (ta : Q * Action) : bool :=
  match snd ta with
  | InputChanged _ | ClearInput _ | CancelSearchbar _ => true
  | _ => false
  end.

(** A value that is absent or the empty string. *)
Definition cleared (v : value) : Prop :=
  isPresent v = false \/ v = Str "".

(** The summary of a stretch of log that the invariants on the log need: as many
    calls of the change callback as input-changed notifications, at most
    [n] of them, and no styling outside the ios mode. *)
Definition quiet_stretch (m : option string) (n : nat) (l : list (Q * Effect)) : Prop :=
  count is_commit l = count (is_emit IonInput) l /\
  (count (is_emit IonInput) l <= n)%nat /\
  (mode_is_not_ios m = true -> count is_style l = 0%nat).

(* ================================================================== *)
(** ** Strings and values *)

Lemma strict_neq_empty_spec (v : value) :
  strict_neq_empty v = true <-> v <> Str "".
Proof.
  destruct v as [| |b|n|s]; simpl; try (split; [discriminate | reflexivity]).
  destruct (String.eqb_spec s ""); simpl; split; intro H;
    try discriminate; congruence.
Qed.

Lemma trim_head_not_space (c : ascii) (r : string) :
  is_space c = false -> trim (String c r) <> "".
Proof.
  intros Hc. unfold trim. simpl. rewrite Hc. simpl.
  destruct (trimEnd r); [rewrite Hc|]; discriminate.
Qed.


Lemma string_of_uint_head (d : Decimal.uint) :
  d <> Decimal.Nil ->
  exists c r, NilEmpty.string_of_uint d = String c r /\ is_space c = false.
Proof.
  destruct d; intros H; try congruence; simpl; eexists _, _; split;
    try reflexivity; reflexivity.
Qed.

Lemma number_toString_not_blank (n : number) :
  trim (number_toString n) <> "".
Proof.
  destruct n as [|z]; [vm_compute; discriminate|].
  unfold number_toString, NilZero.string_of_int.
  destruct (Z.to_int z) as [d|d].
  - unfold NilZero.string_of_uint.
    destruct d; try (vm_compute; discriminate);
      match goal with
      | |- trim (NilEmpty.string_of_uint ?x) <> _ =>
          destruct (string_of_uint_head x) as (c & r & -> & Hc);
          [discriminate | now apply trim_head_not_space]
      end.
  - now apply trim_head_not_space.
Qed.

(** A truthy value has a [toString]: the right operand of [&&] never
    throws. *)
Lemma truthy_toString (v : value) :
  truthy v = true -> exists s, toString v = Some s.
Proof.
  destruct v as [| |[|]|n|s]; simpl; try discriminate; eauto.
Qed.

Lemma valueAndNotBlank_truthy (v : value) :
  truthy (valueAndNotBlank v) = truthy v && present_and_not_blank v.
Proof.
  unfold valueAndNotBlank, present_and_not_blank.
  destruct (truthy v) eqn:T; [|now rewrite T].
  destruct v as [| |[|]|n|s]; simpl in *; try discriminate; reflexivity.
Qed.

(* ================================================================== *)
(** ** Clear, cancel and blur *)

Lemma added_app (w w' : World) (l : list (Q * Effect)) :
  log w' = log w ++ l -> added w w' = l.
Proof.
  unfold added. intros ->. induction (log w) as [|x k IH]; simpl; auto.
Qed.

(** What [clearInput] appends to the log. *)
Lemma clearInput_log (ev : Event) (w : World) :
  log (clearInput ev w) =
  log w ++ (now w, Emit IonClear ev) ::
    (if isPresent (_value (self w)) && strict_neq_empty (_value (self w))
     then [(now w, CallOnChange (onChange (self w)) (Str ""));
           (now w, Emit IonInput ev)]
     else []).
Proof.
  unfold clearInput. simpl.
  destruct (isPresent (_value (self w)) && strict_neq_empty (_value (self w)));
    simpl; rewrite <- ?app_assoc; reflexivity.
Qed.

Lemma clearInput_frame (ev : Event) (w : World) :
  pending (clearInput ev w) = pending w /\
  next_handle (clearInput ev w) = next_handle w /\
  now (clearInput ev w) = now w /\
  _tmr (self (clearInput ev w)) = _tmr (self w) /\
  isFocused (self (clearInput ev w)) = isFocused (self w) /\
  shouldLeftAlign (self (clearInput ev w)) = shouldLeftAlign (self w).
Proof.
  unfold clearInput. simpl.
  destruct (isPresent (_value (self w)) && strict_neq_empty (_value (self w)));
    simpl; repeat split; reflexivity.
Qed.

(** C3.  With a value that is present and not the empty string, the clear
    action emits the clear notification, then at once (same instant, timer
    table untouched) sets the value to the empty string, calls the
    registered change callback once with it, emits exactly one input-changed
    notification, and raises the suppress-blur flag ([_shouldBlur] becomes
    [false]). *)
Theorem clearInput_present_nonempty (ev : Event) (w : World) :
  isPresent (_value (self w)) = true ->
  _value (self w) <> Str "" ->
  let w' := clearInput ev w in
  log w' = log w ++ [(now w, Emit IonClear ev);
                     (now w, CallOnChange (onChange (self w)) (Str ""));
                     (now w, Emit IonInput ev)] /\
  count (is_emit IonClear) (added w w') = 1%nat /\
  count is_commit (added w w') = 1%nat /\
  count (is_emit IonInput) (added w w') = 1%nat /\
  _value (self w') = Str "" /\
  _shouldBlur (self w') = false /\
  pending w' = pending w /\ next_handle w' = next_handle w /\ now w' = now w.
Proof.
  intros Hp Hne w'.
  apply strict_neq_empty_spec in Hne.
  assert (Hlog : log w' = log w ++ [(now w, Emit IonClear ev);
                     (now w, CallOnChange (onChange (self w)) (Str ""));
                     (now w, Emit IonInput ev)]).
  { subst w'. rewrite clearInput_log, Hp, Hne. reflexivity. }
  rewrite (added_app _ _ _ Hlog).
  destruct (clearInput_frame ev w) as (Hpe & Hnh & Hnow & _).
  repeat split; auto.
  subst w'. unfold clearInput. simpl. rewrite Hp, Hne. reflexivity.
Qed.

(** C7.  With a value that is absent or the empty string, the clear action
    emits the clear notification and nothing else: no input-changed
    notification, no call of the change callback, the value as it was. *)
Theorem clearInput_absent_or_empty (ev : Event) (w : World) :
  isPresent (_value (self w)) = false \/ _value (self w) = Str "" ->
  let w' := clearInput ev w in
  log w' = log w ++ [(now w, Emit IonClear ev)] /\
  count (is_emit IonClear) (added w w') = 1%nat /\
  count (is_emit IonInput) (added w w') = 0%nat /\
  count is_commit (added w w') = 0%nat /\
  _value (self w') = _value (self w).
Proof.
  intros H w'.
  assert (Hc : isPresent (_value (self w)) && strict_neq_empty (_value (self w)) = false).
  { destruct H as [H|H]; rewrite H; [reflexivity|]. simpl. reflexivity. }
  assert (Hlog : log w' = log w ++ [(now w, Emit IonClear ev)]).
  { subst w'. rewrite clearInput_log, Hc. reflexivity. }
  rewrite (added_app _ _ _ Hlog).
  repeat split; auto.
  subst w'. unfold clearInput. simpl. rewrite Hc. reflexivity.
Qed.

(** C8.  Whatever the value and the flag, the cancel action emits the cancel
    notification, then does to the log and to every field what the clear
    action does, and ends with the suppress-blur flag lowered ([_shouldBlur]
    is [true]). *)
Theorem cancelSearchbar_is_clear_then_lower (ev : Event) (w : World) :
  let w' := cancelSearchbar ev w in
  log w' = log w ++ (now w, Emit IonCancel ev) :: added w (clearInput ev w) /\
  self w' = set_shouldBlur true (self (clearInput ev w)) /\
  _shouldBlur (self w') = true /\
  pending w' = pending (clearInput ev w) /\
  next_handle w' = next_handle (clearInput ev w) /\
  now w' = now (clearInput ev w).
Proof.
  intros w'. subst w'.
  rewrite (added_app _ _ _ (clearInput_log ev w)).
  unfold cancelSearchbar, clearInput. simpl.
  destruct (isPresent (_value (self w)) && strict_neq_empty (_value (self w)));
    simpl; rewrite <- ?app_assoc; repeat split; reflexivity.
Qed.

(** C9.  A blur that arrives while the suppress-blur flag is set
    ([_shouldBlur] is [false]) refocuses the input element, clears the flag,
    emits no blur notification and leaves [isFocused], [shouldLeftAlign],
    the value and everything else as they were. *)
Theorem inputBlurred_suppressed (ev : Event) (w : World) :
  _shouldBlur (self w) = false ->
  let w' := inputBlurred ev w in
  w' = mkWorld (set_shouldBlur true (self w)) (now w) (next_handle w)
         (pending w) (log w ++ [(now w, ElementFocus)]) /\
  _shouldBlur (self w') = true /\
  count (is_emit IonBlur) (added w w') = 0%nat /\
  isFocused (self w') = isFocused (self w) /\
  shouldLeftAlign (self w') = shouldLeftAlign (self w) /\
  _value (self w') = _value (self w).
Proof.
  intros H w'.
  assert (E : w' = mkWorld (set_shouldBlur true (self w)) (now w) (next_handle w)
         (pending w) (log w ++ [(now w, ElementFocus)])).
  { subst w'. unfold inputBlurred. rewrite H. reflexivity. }
  assert (A : added w w' = [(now w, ElementFocus)])
    by (apply added_app; rewrite E; reflexivity).
  rewrite A, E. repeat split.
Qed.

Lemma clearInput_present_nonempty_witness :
  let w := holding (Str "hello") in
  isPresent (_value (self w)) = true /\
  _value (self w) <> Str "" /\
  log (clearInput a_click w) =
    [(0, Emit IonClear a_click); (0, CallOnChange 0%nat (Str ""));
     (0, Emit IonInput a_click)] /\
  _value (self (clearInput a_click w)) = Str "".
Proof.
  assert (Hp : isPresent (_value (self (holding (Str "hello")))) = true)
    by reflexivity.
  assert (Hn : _value (self (holding (Str "hello"))) <> Str "")
    by (simpl; discriminate).
  destruct (clearInput_present_nonempty a_click (holding (Str "hello")) Hp Hn)
    as (Hlog & _ & _ & _ & Hv & _).
  repeat split; assumption.
Defined.

Lemma clearInput_absent_or_empty_witness :
  let w := holding Undefined in
  (isPresent (_value (self w)) = false \/ _value (self w) = Str "") /\
  log (clearInput a_click w) = [(0, Emit IonClear a_click)] /\
  _value (self (clearInput a_click w)) = Undefined.
Proof.
  assert (H : isPresent (_value (self (holding Undefined))) = false \/
              _value (self (holding Undefined)) = Str "")
    by (left; reflexivity).
  destruct (clearInput_absent_or_empty a_click (holding Undefined) H)
    as (Hlog & _ & _ & _ & Hv).
  repeat split; assumption.
Defined.

Lemma inputBlurred_suppressed_witness :
  let w := clearInput a_click (holding (Str "hello")) in
  _shouldBlur (self w) = false /\
  _shouldBlur (self (inputBlurred a_click w)) = true /\
  isFocused (self (inputBlurred a_click w)) = isFocused (self w).
Proof.
  assert (H : _shouldBlur (self (clearInput a_click (holding (Str "hello")))) = false)
    by reflexivity.
  destruct (inputBlurred_suppressed a_click _ H) as (_ & Hb & _ & Hf & _).
  repeat split; assumption.
Defined.

(** [setElementLeft] only writes its effects to the log. *)
Lemma setElementLeft_eq (w : World) :
  setElementLeft w =
  mkWorld (self w) (now w) (next_handle w) (pending w)
    (log w ++ alignment_effects (now w) (self w)).
Proof.
  unfold setElementLeft, alignment_effects, addElementLeft, emit.
  destruct w as [s t n p l]; simpl.
  destruct (mode_is_not_ios (mode s)); [now rewrite app_nil_r|].
  destruct (truthy (shouldLeftAlign s)); simpl; [|reflexivity].
  now rewrite <- app_assoc.
Qed.

Lemma alignment_effects_no_emit (o : Output) (t : Q) (s : Searchbar) :
  count (is_emit o) (alignment_effects t s) = 0%nat.
Proof.
  unfold alignment_effects.
  destruct (mode_is_not_ios (mode s)); [reflexivity|].
  destruct (truthy (shouldLeftAlign s)); reflexivity.
Qed.


(** C6, as the code has it.  After a blur with the suppress-blur flag unset
    ([_shouldBlur] is [true]) a blur notification is emitted first,
    [isFocused] is [false], and [shouldLeftAlign] holds the value of
    [_value && _value.toString().trim() !== '']: it is truthy exactly when
    the value is truthy and its trimmed string form is not empty.  For a
    string this is the spec's "present and not blank"; a number yields
    [true] unless it is [0] or [NaN], which yield themselves. *)
Theorem inputBlurred_unsuppressed (ev : Event) (w : World) :
  _shouldBlur (self w) = true ->
  let w' := inputBlurred ev w in
  hd_error (added w w') = Some (now w, Emit IonBlur ev) /\
  count (is_emit IonBlur) (added w w') = 1%nat /\
  isFocused (self w') = Some false /\
  shouldLeftAlign (self w') = valueAndNotBlank (_value (self w)) /\
  truthy (shouldLeftAlign (self w')) =
    truthy (_value (self w)) && present_and_not_blank (_value (self w)) /\
  (forall s, _value (self w) = Str s ->
     truthy (shouldLeftAlign (self w')) = present_and_not_blank (Str s)) /\
  (forall n, _value (self w) = Number n ->
     shouldLeftAlign (self w') =
       if truthy (Number n) then Boolean true else Number n).
Proof.
  intros H w'.
  assert (E : w' =
    let s := set_shouldLeftAlign (valueAndNotBlank (_value (self w)))
               (set_isFocused (Some false) (self w)) in
    mkWorld s (now w) (next_handle w) (pending w)
      (log w ++ (now w, Emit IonBlur ev) :: alignment_effects (now w) s)).
  { subst w'. unfold inputBlurred. rewrite H. simpl.
    rewrite setElementLeft_eq. simpl. now rewrite <- app_assoc. }
  assert (A : added w w' = (now w, Emit IonBlur ev) ::
     alignment_effects (now w)
       (set_shouldLeftAlign (valueAndNotBlank (_value (self w)))
               (set_isFocused (Some false) (self w))))
    by (apply added_app; rewrite E; reflexivity).
  rewrite A, E. cbv zeta. simpl self.
  split; [reflexivity|].
  split.
  { change (S (count (is_emit IonBlur) (alignment_effects (now w)
       (set_shouldLeftAlign (valueAndNotBlank (_value (self w)))
               (set_isFocused (Some false) (self w))))) = 1%nat).
    now rewrite alignment_effects_no_emit. }
  split; [reflexivity|]. split; [reflexivity|].
  split; [apply valueAndNotBlank_truthy|].
  split.
  - intros s Hs. simpl. rewrite valueAndNotBlank_truthy, Hs.
    unfold present_and_not_blank. simpl.
    destruct (String.eqb_spec s ""); [subst; reflexivity|reflexivity].
  - intros n Hn.
    change (valueAndNotBlank (_value (self w)) =
            if truthy (Number n) then Boolean true else Number n).
    rewrite Hn. unfold valueAndNotBlank.
    destruct (truthy (Number n)); [|reflexivity].
    cbn [toString].
    destruct (String.eqb_spec (trim (number_toString n)) "") as [e|e];
      [now apply number_toString_not_blank in e | reflexivity].
Qed.

Lemma inputBlurred_unsuppressed_witness :
  let w := holding (Str "  ") in
  _shouldBlur (self w) = true /\
  isFocused (self (inputBlurred a_click w)) = Some false /\
  shouldLeftAlign (self (inputBlurred a_click w)) = Boolean false.
Proof.
  assert (H : _shouldBlur (self (holding (Str "  "))) = true) by reflexivity.
  destruct (inputBlurred_unsuppressed a_click _ H) as (_ & _ & Hf & Ha & _).
  repeat split; assumption.
Defined.

(** C6 as stated fails for the number [0]: it is present and its string form
    ["0"] is not blank, yet after the blur [shouldLeftAlign] is [0], which
    is falsy. *)
Lemma inputBlurred_zero_not_aligned :
  let w := holding (Number (Num 0)) in
  _shouldBlur (self w) = true /\
  present_and_not_blank (_value (self w)) = true /\
  shouldLeftAlign (self (inputBlurred a_click w)) = Number (Num 0) /\
  truthy (shouldLeftAlign (self (inputBlurred a_click w))) = false /\
  shouldLeftAlign (self (inputBlurred a_click w))
    <> Boolean (present_and_not_blank (_value (self w))).
Proof.
  repeat split. discriminate.
Qed.

(* ================================================================== *)
(** ** The timer table and the passing of time *)

Lemma later_le (a b : Q) : a <= b -> later a b = b.
Proof.
  intros H. unfold later. now apply Qle_bool_iff in H as ->.
Qed.


Lemma Qle_bool_false_lt (a b : Q) : Qle_bool a b = false <-> b < a.
Proof.
  split; intros H.
  - destruct (Qlt_le_dec b a) as [L|L]; [assumption|].
    apply Qle_bool_iff in L. congruence.
  - destruct (Qle_bool a b) eqn:E; [|reflexivity].
    apply Qle_bool_iff in E. exfalso. eapply Qlt_not_le; eassumption.
Qed.

Lemma earliest_In (l : list Timer) (tm : Timer) :
  earliest l = Some tm -> In tm l.
Proof.
  revert tm. induction l as [|x l IH]; simpl; intros tm H; [discriminate|].
  destruct (earliest l) as [m|].
  - destruct (before x m); inversion H; subst; auto.
  - inversion H; auto.
Qed.

Lemma next_due_In (t : Q) (l : list Timer) (tm : Timer) :
  next_due t l = Some tm -> In tm l /\ due tm <= t.
Proof.
  unfold next_due. destruct (earliest l) as [m|] eqn:E; [|discriminate].
  destruct (Qle_bool (due m) t) eqn:D; [|discriminate].
  intros H; inversion H; subst. split.
  - now apply earliest_In.
  - now apply Qle_bool_iff.
Qed.

Lemma filter_drops (A : Type) (f : A -> bool) (l : list A) (x : A) :
  In x l -> f x = false -> (List.length (filter f l) < List.length l)%nat.
Proof.
  induction l as [|y l IH]; simpl; [tauto|].
  intros [->|H] Hx.
  - rewrite Hx. pose proof (filter_length_le f l). lia.
  - specialize (IH H Hx). destruct (f y); simpl; lia.
Qed.

Lemma fire_pending (tm : Timer) (w : World) :
  pending (fire tm w) =
  filter (fun x => negb (Nat.eqb (handle x) (handle tm))) (pending w).
Proof. reflexivity. Qed.

(** Every timer that is due has run once the clock has been advanced: the
    rounds [advance] allows are enough. *)
Lemma run_timers_enough (fuel : nat) (t : Q) (w : World) :
  (List.length (pending w) <= fuel)%nat ->
  next_due t (pending (run_timers fuel t w)) = None.
Proof.
  revert w. induction fuel as [|k IH]; intros w H; simpl.
  - destruct (pending w); [reflexivity | simpl in H; lia].
  - destruct (next_due t (pending w)) as [tm|] eqn:E; [|assumption].
    apply IH. rewrite fire_pending.
    apply next_due_In in E as [Hin _].
    pose proof (filter_drops _ (fun x => negb (Nat.eqb (handle x) (handle tm)))
                  _ _ Hin) as L.
    simpl in L. rewrite Nat.eqb_refl in L. specialize (L eq_refl). lia.
Qed.

Lemma advance_nothing_due (t : Q) (w : World) :
  next_due t (pending (advance t w)) = None.
Proof.
  unfold advance. simpl. now apply run_timers_enough.
Qed.

Lemma advance_empty (t : Q) (w : World) :
  pending w = [] ->
  advance t w = mkWorld (self w) (later (now w) t) (next_handle w) [] (log w).
Proof.
  intros H. unfold advance. rewrite H. simpl. now rewrite H.
Qed.

Lemma advance_not_due (t : Q) (w : World) (tm : Timer) :
  pending w = [tm] -> t < due tm ->
  advance t w = mkWorld (self w) (later (now w) t) (next_handle w) [tm] (log w).
Proof.
  intros H L. apply Qle_bool_false_lt in L.
  unfold advance. rewrite H. simpl. unfold next_due. rewrite H. simpl.
  rewrite L. now rewrite H.
Qed.

Lemma advance_due (t : Q) (w : World) (tm : Timer) :
  pending w = [tm] -> due tm <= t ->
  advance t w =
  mkWorld (set_value (Str (captured_value tm)) (self w))
    (later (later (now w) (due tm)) t) (next_handle w) []
    (log w ++ [(later (now w) (due tm),
                CallOnChange (onChange (self w)) (Str (captured_value tm)));
               (later (now w) (due tm), Emit IonInput (captured_ev tm))]).
Proof.
  intros H L. apply Qle_bool_iff in L.
  unfold advance. rewrite H. simpl. unfold next_due. rewrite H. simpl.
  rewrite L. unfold fire, commit. simpl. rewrite H. simpl.
  rewrite Nat.eqb_refl. simpl. now rewrite <- app_assoc.
Qed.

(** What each action leaves alone. *)
Lemma step_frame (a : Action) (w : World) :
  (forall ev, a <> InputChanged ev) ->
  pending (step a w) = pending w /\
  _tmr (self (step a w)) = _tmr (self w) /\
  next_handle (step a w) = next_handle w /\
  now (step a w) = now w.
Proof.
  intros Ha. destruct a; try (exfalso; now eapply Ha); simpl;
    unfold inputFocused, inputBlurred, cancelSearchbar, clearInput, writeValue,
      registerOnChange, registerOnTouched, destroy, ngOnDestroy;
    rewrite ?setElementLeft_eq; simpl;
    repeat match goal with
           | |- context [if ?c then _ else _] => destruct c; simpl
           end;
    rewrite ?setElementLeft_eq; repeat split; reflexivity.
Qed.

Lemma clearTimeout_inv (w : World) :
  timer_inv w -> pending (clearTimeout (_tmr (self w)) w) = [].
Proof.
  unfold timer_inv. intros H.
  destruct (pending w) as [|tm [|tm' l]] eqn:E; [| |contradiction].
  - destruct (_tmr (self w)); simpl; rewrite E; reflexivity.
  - destruct H as [-> _]. simpl. rewrite E. simpl.
    now rewrite Nat.eqb_refl.
Qed.

Lemma inputChanged_eq (ev : Event) (w : World) :
  timer_inv w ->
  inputChanged ev w =
  mkWorld (set_tmr (Some (next_handle w)) (self w)) (now w) (S (next_handle w))
    [mkTimer (next_handle w) (now w + delay w) (target_value ev) ev] (log w).
Proof.
  intros H. pose proof (clearTimeout_inv w H) as C.
  unfold inputChanged, setTimeout, delay.
  destruct (_tmr (self w)) as [h|]; simpl in *; rewrite C; reflexivity.
Qed.

Lemma mount_inv (m : string) (i : Inputs) : timer_inv (mount m i).
Proof.
  unfold mount, ngAfterViewInit. rewrite setElementLeft_eq. exact I.
Qed.

Lemma step_inv (a : Action) (w : World) : timer_inv w -> timer_inv (step a w).
Proof.
  intros H. destruct a;
    try (match goal with
         | |- timer_inv (step ?a w) =>
             destruct (step_frame a w ltac:(intros ?; discriminate))
               as (Hp & Ht & Hn & _)
         end;
         unfold timer_inv; rewrite Hp, Ht, Hn; exact H).
  simpl. rewrite inputChanged_eq by assumption.
  unfold timer_inv. simpl. split; [reflexivity | lia].
Qed.

Lemma advance_inv (t : Q) (w : World) : timer_inv w -> timer_inv (advance t w).
Proof.
  unfold timer_inv at 1. intros H.
  destruct (pending w) as [|tm [|tm' l]] eqn:E; [| |contradiction].
  - rewrite advance_empty by assumption. exact I.
  - destruct (Qlt_le_dec t (due tm)) as [L|L].
    + rewrite (advance_not_due _ _ _ E L). exact H.
    + rewrite (advance_due _ _ _ E L). exact I.
Qed.

Lemma reachable_inv (w : World) : reachable w -> timer_inv w.
Proof.
  induction 1; auto using mount_inv, step_inv, advance_inv.
Qed.

Lemma run_reachable (sched : list (Q * Action)) (w : World) :
  reachable w -> reachable (run sched w).
Proof.
  revert w. induction sched as [|[t a] r IH]; intros w H; simpl; [assumption|].
  apply IH. now apply reach_step, reach_advance.
Qed.

(* ================================================================== *)
(** ** One pending timer *)

(** C2.  In every reachable state at most one debounce timer is pending, and
    [inputChanged] first cancels it ([clearTimeout] on [_tmr] empties the
    table) and then schedules the only pending one, under a new handle. *)
Theorem at_most_one_pending_timer (w : World) :
  reachable w ->
  (List.length (pending w) <= 1)%nat /\
  forall ev,
    pending (clearTimeout (_tmr (self w)) w) = [] /\
    pending (inputChanged ev w) =
      [mkTimer (next_handle w) (now w + delay w) (target_value ev) ev] /\
    _tmr (self (inputChanged ev w)) = Some (next_handle w) /\
    (forall tm, In tm (pending w) -> ~ In tm (pending (inputChanged ev w))).
Proof.
  intros R. pose proof (reachable_inv w R) as I. split.
  - unfold timer_inv in I.
    destruct (pending w) as [|tm [|tm' l]]; simpl; lia || contradiction.
  - intros ev. split; [now apply clearTimeout_inv|].
    rewrite inputChanged_eq by assumption. simpl.
    split; [reflexivity|]. split; [reflexivity|].
    intros tm Hin [E|[]]. unfold timer_inv in I.
    destruct (pending w) as [|tm0 [|tm' l]]; [destruct Hin| |contradiction].
    destruct Hin as [->|[]]. destruct I as [_ L].
    subst tm. simpl in L. lia.
Qed.

Lemma at_most_one_pending_timer_witness :
  let w := run [(0, InputChanged (key 1 "a"))] (mount "md" default_inputs) in
  reachable w /\
  (List.length (pending w) <= 1)%nat /\
  pending (inputChanged (key 2 "ab") w) =
    [mkTimer (next_handle w) (now w + delay w) "ab" (key 2 "ab")].
Proof.
  assert (R : reachable
    (run [(0, InputChanged (key 1 "a"))] (mount "md" default_inputs)))
    by (apply run_reachable, reach_mount).
  destruct (at_most_one_pending_timer _ R) as (L & H).
  destruct (H (key 2 "ab")) as (_ & P & _).
  repeat split; assumption.
Defined.

(* ================================================================== *)
(** ** Destruction *)

(** C4, as the code has it.  The class has no destroy hook, so destroying
    the widget cancels nothing: a pending debounce timer stays in the table
    and its commit still runs at its due time. *)
Theorem destroy_leaves_timer (w : World) (tm : Timer) (T : Q) :
  pending w = [tm] ->
  now w <= due tm ->
  due tm <= T ->
  pending (destroy w) = [tm] /\
  let w' := advance T (destroy w) in
  added w w' =
    [(due tm, CallOnChange (onChange (self w)) (Str (captured_value tm)));
     (due tm, Emit IonInput (captured_ev tm))] /\
  _value (self w') = Str (captured_value tm).
Proof.
  intros P N D. split; [exact P|].
  unfold destroy, ngOnDestroy. cbv zeta.
  rewrite (advance_due _ _ _ P D), (later_le _ _ N).
  split; [|reflexivity].
  now apply added_app.
Qed.

Lemma destroy_leaves_timer_witness :
  let w := inputChanged (key 1 "a") (mount "md" default_inputs) in
  let tm := mkTimer 1 (250 # 1) "a" (key 1 "a") in
  pending w = [tm] /\ now w <= due tm /\ due tm <= 1000 # 1 /\
  _value (self (advance (1000 # 1) (destroy w))) = Str "a".
Proof.
  assert (P : pending (inputChanged (key 1 "a") (mount "md" default_inputs)) =
              [mkTimer 1 (250 # 1) "a" (key 1 "a")]) by reflexivity.
  assert (N : now (inputChanged (key 1 "a") (mount "md" default_inputs)) <=
              due (mkTimer 1 (250 # 1) "a" (key 1 "a"))) by (vm_compute; discriminate).
  assert (D : due (mkTimer 1 (250 # 1) "a" (key 1 "a")) <= 1000 # 1)
    by (vm_compute; discriminate).
  destruct (destroy_leaves_timer _ _ _ P N D) as (_ & _ & V).
  repeat split; assumption.
Defined.

(** C4 as stated fails: a commit scheduled at time 0 and due at 250 runs
    although the widget was destroyed at time 100. *)
Lemma commit_fires_after_destroy :
  let w := run [(0, InputChanged (key 1 "a")); (100 # 1, Destroy)]
             (mount "md" default_inputs) in
  pending w <> [] /\
  log w = [] /\
  log (advance (1000 # 1) w) =
    [(250 # 1, CallOnChange 0%nat (Str "a"));
     (250 # 1, Emit IonInput (key 1 "a"))] /\
  _value (self (advance (1000 # 1) w)) = Str "a".
Proof.
  repeat split. discriminate.
Qed.

(* ================================================================== *)
(** ** writeValue *)

(** C10.  [writeValue] stores the value and touches nothing else: no
    callback, no notification, [shouldLeftAlign] as it was, the timer table
    as it was; so a commit that was pending still runs at its due time and
    replaces the written value. *)
Theorem writeValue_only_sets_value (val : value) (w : World) :
  writeValue val w =
    mkWorld (set_value val (self w)) (now w) (next_handle w) (pending w) (log w) /\
  _value (self (writeValue val w)) = val /\
  added w (writeValue val w) = [] /\
  shouldLeftAlign (self (writeValue val w)) = shouldLeftAlign (self w) /\
  pending (writeValue val w) = pending w /\
  forall tm T,
    pending w = [tm] -> now w <= due tm -> due tm <= T ->
    let w' := advance T (writeValue val w) in
    added w w' =
      [(due tm, CallOnChange (onChange (self w)) (Str (captured_value tm)));
       (due tm, Emit IonInput (captured_ev tm))] /\
    _value (self w') = Str (captured_value tm).
Proof.
  split; [reflexivity|]. split; [reflexivity|].
  split; [apply added_app; simpl; now rewrite app_nil_r|].
  split; [reflexivity|]. split; [reflexivity|].
  intros tm T P N D w'. subst w'.
  rewrite (advance_due T (writeValue val w) tm P D).
  split; [|reflexivity].
  apply added_app. simpl. now rewrite (later_le _ _ N).
Qed.

Lemma writeValue_only_sets_value_witness :
  let w := inputChanged (key 1 "typed") (mount "md" default_inputs) in
  let tm := mkTimer 1 (250 # 1) "typed" (key 1 "typed") in
  pending w = [tm] /\ now w <= due tm /\ due tm <= 1000 # 1 /\
  _value (self (writeValue (Str "written") w)) = Str "written" /\
  _value (self (advance (1000 # 1) (writeValue (Str "written") w))) = Str "typed".
Proof.
  assert (P : pending (inputChanged (key 1 "typed") (mount "md" default_inputs)) =
              [mkTimer 1 (250 # 1) "typed" (key 1 "typed")]) by reflexivity.
  assert (N : now (inputChanged (key 1 "typed") (mount "md" default_inputs)) <=
              due (mkTimer 1 (250 # 1) "typed" (key 1 "typed")))
    by (vm_compute; discriminate).
  assert (D : due (mkTimer 1 (250 # 1) "typed" (key 1 "typed")) <= 1000 # 1)
    by (vm_compute; discriminate).
  destruct (writeValue_only_sets_value (Str "written")
              (inputChanged (key 1 "typed") (mount "md" default_inputs)))
    as (_ & V & _ & _ & _ & F).
  destruct (F _ _ P N D) as (_ & V').
  repeat split; assumption.
Defined.

(* ================================================================== *)
(** ** Focus and alignment *)

Lemma advance_keeps_focus (t : Q) (w : World) :
  timer_inv w ->
  isFocused (self (advance t w)) = isFocused (self w) /\
  shouldLeftAlign (self (advance t w)) = shouldLeftAlign (self w).
Proof.
  unfold timer_inv. intros H.
  destruct (pending w) as [|tm [|tm' l]] eqn:E; [| |contradiction].
  - now rewrite advance_empty.
  - destruct (Qlt_le_dec t (due tm)) as [L|L].
    + now rewrite (advance_not_due _ _ _ E L).
    + now rewrite (advance_due _ _ _ E L).
Qed.

Lemma step_keeps_alignment (a : Action) (w : World) :
  (forall ev, a <> InputFocused ev) ->
  (forall ev, a <> InputBlurred ev) ->
  isFocused (self (step a w)) = isFocused (self w) /\
  shouldLeftAlign (self (step a w)) = shouldLeftAlign (self w).
Proof.
  intros Hf Hb. destruct a;
    try (exfalso; now eapply Hf); try (exfalso; now eapply Hb); simpl;
    unfold inputChanged, setTimeout, clearTimeout, cancelSearchbar, clearInput,
      writeValue, registerOnChange, registerOnTouched, destroy, ngOnDestroy;
    simpl;
    repeat match goal with
           | |- context [if ?c then _ else _] => destruct c; simpl
           | |- context [match ?c with Some _ => _ | None => _ end] =>
               destruct c; simpl
           end;
    split; reflexivity.
Qed.

Lemma inputFocused_alignment (ev : Event) (w : World) :
  isFocused (self (inputFocused ev w)) = Some true /\
  shouldLeftAlign (self (inputFocused ev w)) = Boolean true.
Proof.
  unfold inputFocused. rewrite setElementLeft_eq. split; reflexivity.
Qed.

Lemma focused_implies_aligned (w : World) :
  reachable w ->
  isFocused (self w) = Some true -> shouldLeftAlign (self w) = Boolean true.
Proof.
  induction 1 as [m i | a w R IH | t w R IH].
  - unfold mount, ngAfterViewInit. rewrite setElementLeft_eq. discriminate.
  - destruct a;
      try (match goal with
           | |- isFocused (self (step ?a w)) = _ -> _ =>
               destruct (step_keeps_alignment a w
                           ltac:(intros ?; discriminate)
                           ltac:(intros ?; discriminate)) as [-> ->]
           end; exact IH).
    + intros _. apply inputFocused_alignment.
    + simpl. unfold inputBlurred.
      destruct (_shouldBlur (self w)); simpl;
        [rewrite setElementLeft_eq; discriminate | exact IH].
  - destruct (advance_keeps_focus t w (reachable_inv w R)) as [-> ->].
    exact IH.
Qed.

(** C5, as the code has it.  In every reachable state a focused widget has
    [shouldLeftAlign] equal to [true].  The field is written only by the
    focus handler (to [true]) and by an unsuppressed blur (to the value of
    [_value && _value.toString().trim() !== ''] at that moment); every
    other action, a suppressed blur and a fired debounce commit leave it
    as it was, whatever the value has become. *)
Theorem shouldLeftAlign_follows_focus_and_blur (w : World) :
  reachable w ->
  (isFocused (self w) = Some true -> shouldLeftAlign (self w) = Boolean true) /\
  (forall ev, shouldLeftAlign (self (inputFocused ev w)) = Boolean true) /\
  (forall ev, _shouldBlur (self w) = true ->
     shouldLeftAlign (self (inputBlurred ev w)) =
       valueAndNotBlank (_value (self w))) /\
  (forall ev, _shouldBlur (self w) = false ->
     shouldLeftAlign (self (inputBlurred ev w)) = shouldLeftAlign (self w)) /\
  (forall a, (forall ev, a <> InputFocused ev) ->
             (forall ev, a <> InputBlurred ev) ->
     shouldLeftAlign (self (step a w)) = shouldLeftAlign (self w)) /\
  (forall t, shouldLeftAlign (self (advance t w)) = shouldLeftAlign (self w)).
Proof.
  intros R.
  split; [now apply focused_implies_aligned|].
  split; [intros ev; apply inputFocused_alignment|].
  split.
  { intros ev B. unfold inputBlurred. rewrite B. simpl.
    now rewrite setElementLeft_eq. }
  split.
  { intros ev B. unfold inputBlurred. now rewrite B. }
  split.
  { intros a Hf Hb. now apply step_keeps_alignment. }
  intros t. now apply advance_keeps_focus, reachable_inv.
Qed.

Lemma shouldLeftAlign_follows_focus_and_blur_witness :
  let w := run [(0, InputFocused a_click); (5 # 1, WriteValue (Str "abc"))]
             (mount "ios" default_inputs) in
  reachable w /\
  isFocused (self w) = Some true /\
  shouldLeftAlign (self w) = Boolean true /\
  shouldLeftAlign (self (step (WriteValue (Str "")) w)) = shouldLeftAlign (self w).
Proof.
  assert (R : reachable
    (run [(0, InputFocused a_click); (5 # 1, WriteValue (Str "abc"))]
       (mount "ios" default_inputs)))
    by (apply run_reachable, reach_mount).
  destruct (shouldLeftAlign_follows_focus_and_blur _ R)
    as (F & _ & _ & _ & K & _).
  assert (E : isFocused (self
    (run [(0, InputFocused a_click); (5 # 1, WriteValue (Str "abc"))]
       (mount "ios" default_inputs))) = Some true) by reflexivity.
  split; [exact R|]. split; [exact E|]. split; [exact (F E)|].
  exact (K (WriteValue (Str "")) ltac:(intros ?; discriminate)
                                 ltac:(intros ?; discriminate)).
Defined.

(** C5 as stated fails: after a focus and a blur on the empty value, a
    written value leaves the widget unfocused with a value that is not
    blank, and [shouldLeftAlign] is still the empty string from the blur,
    which is falsy. *)
Lemma written_value_not_aligned :
  let w := run [(0, InputFocused a_click); (1 # 1, InputBlurred a_click);
                (2 # 1, WriteValue (Str "abc"))]
             (mount "ios" default_inputs) in
  reachable w /\
  isFocused (self w) = Some false /\
  _value (self w) = Str "abc" /\
  focused_or_not_blank (self w) = true /\
  shouldLeftAlign (self w) = Str "" /\
  truthy (shouldLeftAlign (self w)) <> focused_or_not_blank (self w).
Proof.
  split; [apply run_reachable, reach_mount|].
  repeat split. discriminate.
Qed.

(* ================================================================== *)
(** ** Debounce *)

Lemma to_long_in_range (z : Z) :
  (- 2 ^ 31 <= z < 2 ^ 31)%Z -> to_long z = z.
Proof.
  unfold to_long.
  change (2 ^ 31)%Z with 2147483648%Z. change (2 ^ 32)%Z with 4294967296%Z.
  intros H. rewrite Z.mod_small by lia. lia.
Qed.

Lemma delay_in_range (w : World) :
  timeout_in_range w ->
  delay w = inject_Z (Z.max 0 (Math_round (debounce (self w)))).
Proof.
  intros H. unfold delay. now rewrite to_long_in_range.
Qed.

Lemma delay_nonneg (w : World) : 0 <= delay w.
Proof.
  unfold delay. change 0 with (inject_Z 0). rewrite <- Zle_Qle. lia.
Qed.

(** The clock moves to [t] and nothing runs when no pending timer is due by
    then. *)
Lemma advance_quiet (t : Q) (w : World) :
  timer_inv w ->
  Forall (fun tm => t < due tm) (pending w) ->
  now w <= t ->
  advance t w = mkWorld (self w) t (next_handle w) (pending w) (log w).
Proof.
  unfold timer_inv. intros I F N.
  destruct (pending w) as [|tm [|tm' l]] eqn:E; [| |contradiction].
  - rewrite advance_empty by assumption. now rewrite later_le.
  - inversion F; subst.
    rewrite (advance_not_due _ _ _ E) by assumption. now rewrite later_le.
Qed.

Lemma last_cons_default (A : Type) (l : list A) (x d : A) :
  last (x :: l) d = last l x.
Proof.
  revert x d. induction l as [|z l IH]; intros x d; [reflexivity|].
  change (last (x :: z :: l) d) with (last (z :: l) d).
  rewrite (IH z d). symmetry. apply (IH z x).
Qed.

(** After a burst the table holds exactly the timer of its last event. *)
Lemma burst_state (rest : list (Q * Event)) :
  forall (w : World) (t0 : Q) (e0 : Event),
  timer_inv w ->
  Forall (fun tm => t0 < due tm) (pending w) ->
  now w <= t0 ->
  spaced (delay w) t0 rest ->
  exists h,
    run (typing ((t0, e0) :: rest)) w =
    mkWorld (set_tmr (Some h) (self w)) (fst (last rest (t0, e0))) (S h)
      [mkTimer h (fst (last rest (t0, e0)) + delay w)
         (target_value (snd (last rest (t0, e0)))) (snd (last rest (t0, e0)))]
      (log w).
Proof.
  induction rest as [|[t1 e1] r IH]; intros w t0 e0 I F N Sp.
  - exists (next_handle w). simpl.
    rewrite advance_quiet by assumption.
    now rewrite inputChanged_eq.
  - destruct Sp as (L1 & G & Sp).
    change (run (typing ((t0, e0) :: (t1, e1) :: r)) w)
      with (run (typing ((t1, e1) :: r)) (inputChanged e0 (advance t0 w))).
    pose (w1 := mkWorld (set_tmr (Some (next_handle w)) (self w)) t0
                  (S (next_handle w))
                  [mkTimer (next_handle w) (t0 + delay w) (target_value e0) e0]
                  (log w)).
    assert (E1 : inputChanged e0 (advance t0 w) = w1).
    { rewrite advance_quiet by assumption.
      now rewrite inputChanged_eq by exact I. }
    rewrite E1.
    assert (D : delay w1 = delay w) by reflexivity.
    destruct (IH w1 t1 e1) as [h Hh].
    + unfold timer_inv, w1. simpl. split; [reflexivity | lia].
    + unfold w1. simpl. constructor; [|constructor]. simpl. lra.
    + exact L1.
    + now rewrite D.
    + exists h. rewrite Hh, D, (last_cons_default _ r (t1, e1) (t0, e0)).
      reflexivity.
Qed.

(** C1, as the code has it.  Let [Math.round(debounce)] fit the signed
    32-bit integer in which the platform keeps a timer's delay, so that the
    delay is [Math.round(debounce)], or 0 when that is negative.  A burst of
    input events in which consecutive events are less than this delay apart
    produces exactly one commit and one input-changed notification; both
    carry the last event of the burst and happen exactly one delay after it,
    and nothing is logged before. *)
Theorem burst_commits_once (w : World) (t0 : Q) (e0 : Event)
    (rest : list (Q * Event)) (T : Q) :
  reachable w ->
  timeout_in_range w ->
  Forall (fun tm => t0 < due tm) (pending w) ->
  now w <= t0 ->
  spaced (delay w) t0 rest ->
  let tn := fst (last rest (t0, e0)) in
  let en := snd (last rest (t0, e0)) in
  let w' := run (typing ((t0, e0) :: rest)) w in
  delay w = inject_Z (Z.max 0 (Math_round (debounce (self w)))) /\
  (T < tn + delay w -> added w (advance T w') = []) /\
  (tn + delay w <= T ->
     added w (advance T w') =
       [(tn + delay w, CallOnChange (onChange (self w)) (Str (target_value en)));
        (tn + delay w, Emit IonInput en)] /\
     count is_commit (added w (advance T w')) = 1%nat /\
     count (is_emit IonInput) (added w (advance T w')) = 1%nat /\
     _value (self (advance T w')) = Str (target_value en) /\
     pending (advance T w') = []).
Proof.
  intros R Rg F N Sp tn en w'.
  split; [now apply delay_in_range|].
  destruct (burst_state rest w t0 e0 (reachable_inv w R) F N Sp) as [h Hh].
  fold tn en in Hh. fold w' in Hh.
  assert (P : pending w' =
    [mkTimer h (tn + delay w) (target_value en) en]) by now rewrite Hh.
  assert (Nw : now w' = tn) by now rewrite Hh.
  assert (Lw : log w' = log w) by now rewrite Hh.
  assert (Cw : onChange (self w') = onChange (self w)) by now rewrite Hh.
  pose proof (delay_nonneg w) as D0.
  split.
  - intros L. apply added_app.
    rewrite (advance_not_due _ _ _ P L). simpl. now rewrite Lw, app_nil_r.
  - intros L.
    assert (Hlog : log (advance T w') = log w ++
       [(tn + delay w, CallOnChange (onChange (self w)) (Str (target_value en)));
        (tn + delay w, Emit IonInput en)]).
    { rewrite (advance_due _ _ _ P L). simpl. rewrite Lw, Cw, Nw.
      rewrite later_le by lra. reflexivity. }
    rewrite (added_app _ _ _ Hlog).
    split; [reflexivity|]. split; [reflexivity|]. split; [reflexivity|].
    rewrite (advance_due _ _ _ P L). split; reflexivity.
Qed.

(** The scenario of the spec: debounce 250, "a" typed at 0 and "ab" at 100;
    the single commit of "ab" happens at 350. *)
Lemma burst_commits_once_witness :
  let w := mount "md" default_inputs in
  let w' := run (typing [(0, key 1 "a"); (100 # 1, key 2 "ab")]) w in
  reachable w /\
  timeout_in_range w /\
  Forall (fun tm => 0 < due tm) (pending w) /\
  now w <= 0 /\
  spaced (delay w) 0 [(100 # 1, key 2 "ab")] /\
  (100 # 1) + delay w <= 400 # 1 /\
  added w (advance (400 # 1) w') =
    [((100 # 1) + delay w, CallOnChange 0%nat (Str "ab"));
     ((100 # 1) + delay w, Emit IonInput (key 2 "ab"))] /\
  (100 # 1) + delay w = 350 # 1.
Proof.
  assert (R : reachable (mount "md" default_inputs)) by apply reach_mount.
  assert (Rg : timeout_in_range (mount "md" default_inputs))
    by (vm_compute; split; [discriminate | reflexivity]).
  assert (F : Forall (fun tm => 0 < due tm) (pending (mount "md" default_inputs)))
    by constructor.
  assert (N : now (mount "md" default_inputs) <= 0) by (vm_compute; discriminate).
  assert (Sp : spaced (delay (mount "md" default_inputs)) 0 [(100 # 1, key 2 "ab")])
    by (simpl; repeat split; vm_compute; (reflexivity || discriminate)).
  assert (L : (100 # 1) + delay (mount "md" default_inputs) <= 400 # 1)
    by (vm_compute; discriminate).
  destruct (burst_commits_once _ 0 (key 1 "a") [(100 # 1, key 2 "ab")] (400 # 1)
              R Rg F N Sp) as (_ & _ & H).
  destruct (H L) as (A & _).
  split; [exact R|]. split; [exact Rg|]. split; [exact F|]. split; [exact N|]. split; [exact Sp|].
  split; [exact L|]. split; [exact A|]. reflexivity.
Defined.

(** C1 as stated fails when [debounce] is not an integer: with a debounce of
    250.4 the timer delay is 250, and two events 250.2 apart, which is less
    than the debounce, are committed separately. *)
Lemma burst_below_debounce_commits_twice :
  let w := mount "md" (mkInputs (Str "") (1252 # 5) "Search") in
  let w' := advance (1000 # 1)
              (run (typing [(0, key 1 "a"); (1251 # 5, key 2 "ab")]) w) in
  reachable w /\
  pending w = [] /\
  spaced (debounce (self w)) 0 [(1251 # 5, key 2 "ab")] /\
  Math_round (debounce (self w)) = 250%Z /\
  log w' =
    [(250 # 1, CallOnChange 0%nat (Str "a"));
     (250 # 1, Emit IonInput (key 1 "a"));
     (2501 # 5, CallOnChange 0%nat (Str "ab"));
     (2501 # 5, Emit IonInput (key 2 "ab"))] /\
  count is_commit (added w w') = 2%nat /\
  count (is_emit IonInput) (added w w') = 2%nat /\
  count is_commit (added w w') <> 1%nat.
Proof.
  split; [apply reach_mount|].
  split; [reflexivity|].
  split; [simpl; repeat split; vm_compute; (reflexivity || discriminate)|].
  repeat split. discriminate.
Qed.

(* ================================================================== *)
(** ** A pending commit and the other actions *)

(** X1.  Only typing cancels a pending commit.  Whatever other action
    arrives while a commit is pending (clear, cancel, focus, blur,
    [writeValue], a new debounce, a new callback, destruction), the timer
    stays, and at its due time the commit sets the value typed, calls the
    change callback registered by then, and emits input-changed. *)
Theorem pending_commit_survives (a : Action) (w : World) (tm : Timer) (T : Q) :
  (forall ev, a <> InputChanged ev) ->
  pending w = [tm] ->
  now w <= due tm ->
  due tm <= T ->
  pending (step a w) = [tm] /\
  added (step a w) (advance T (step a w)) =
    [(due tm, CallOnChange (onChange (self (step a w))) (Str (captured_value tm)));
     (due tm, Emit IonInput (captured_ev tm))] /\
  _value (self (advance T (step a w))) = Str (captured_value tm) /\
  pending (advance T (step a w)) = [].
Proof.
  intros Ha P N D.
  destruct (step_frame a w Ha) as (Hp & _ & _ & Hn).
  assert (P' : pending (step a w) = [tm]) by now rewrite Hp.
  split; [exact P'|].
  rewrite (advance_due T (step a w) tm P' D), Hn, (later_le _ _ N).
  split; [now apply added_app|]. split; reflexivity.
Qed.

Lemma pending_commit_survives_witness :
  pending (inputChanged (key 1 "typed") (holding (Str "old"))) =
    [mkTimer 1 (250 # 1) "typed" (key 1 "typed")] /\
  _value (self (step (ClearInput a_click)
                  (inputChanged (key 1 "typed") (holding (Str "old"))))) = Str "" /\
  _value (self (advance (300 # 1)
                  (step (ClearInput a_click)
                     (inputChanged (key 1 "typed") (holding (Str "old")))))) =
    Str "typed".
Proof.
  assert (P : pending (inputChanged (key 1 "typed") (holding (Str "old"))) =
              [mkTimer 1 (250 # 1) "typed" (key 1 "typed")]) by reflexivity.
  assert (N : now (inputChanged (key 1 "typed") (holding (Str "old"))) <=
              due (mkTimer 1 (250 # 1) "typed" (key 1 "typed")))
    by (vm_compute; discriminate).
  assert (D : due (mkTimer 1 (250 # 1) "typed" (key 1 "typed")) <= 300 # 1)
    by (vm_compute; discriminate).
  destruct (pending_commit_survives (ClearInput a_click) _ _ _
              ltac:(intros ?; discriminate) P N D) as (_ & _ & V & _).
  split; [exact P|]. split; [reflexivity | exact V].
Defined.

(** X2.  The change callback is looked up when it is called: after
    [registerOnChange fn], a clear of a non-empty value calls [fn] with the
    empty string, and a commit that was scheduled before the registration
    calls [fn] with the typed value. *)
Theorem registerOnChange_takes_effect (fn : nat) (w : World) :
  (forall ev,
     isPresent (_value (self w)) = true -> _value (self w) <> Str "" ->
     count is_commit (added w (clearInput ev (registerOnChange fn w))) = 1%nat /\
     In (now w, CallOnChange fn (Str ""))
        (added w (clearInput ev (registerOnChange fn w)))) /\
  (forall tm T,
     pending w = [tm] -> now w <= due tm -> due tm <= T ->
     added w (advance T (registerOnChange fn w)) =
       [(due tm, CallOnChange fn (Str (captured_value tm)));
        (due tm, Emit IonInput (captured_ev tm))]).
Proof.
  split.
  - intros ev Hp Hne. apply strict_neq_empty_spec in Hne.
    assert (L : log (clearInput ev (registerOnChange fn w)) = log w ++
              [(now w, Emit IonClear ev); (now w, CallOnChange fn (Str ""));
               (now w, Emit IonInput ev)]).
    { rewrite clearInput_log. simpl. rewrite Hp, Hne. reflexivity. }
    rewrite (added_app _ _ _ L). split; [reflexivity|]. simpl. auto.
  - intros tm T P N D. apply added_app.
    rewrite (advance_due T (registerOnChange fn w) tm P D). simpl.
    now rewrite (later_le _ _ N).
Qed.

Lemma registerOnChange_takes_effect_witness :
  isPresent (_value (self (holding (Str "hello")))) = true /\
  _value (self (holding (Str "hello"))) <> Str "" /\
  In (0, CallOnChange 42%nat (Str ""))
     (added (holding (Str "hello"))
        (clearInput a_click (registerOnChange 42%nat (holding (Str "hello"))))).
Proof.
  assert (Hp : isPresent (_value (self (holding (Str "hello")))) = true)
    by reflexivity.
  assert (Hn : _value (self (holding (Str "hello"))) <> Str "")
    by (simpl; discriminate).
  destruct (registerOnChange_takes_effect 42%nat (holding (Str "hello")))
    as (C & _).
  destruct (C a_click Hp Hn) as (_ & I).
  split; [exact Hp|]. split; [exact Hn | exact I].
Defined.

(* ================================================================== *)
(** ** Clear, cancel and the blur that follows *)

Lemma inputBlurred_through (ev : Event) (w : World) :
  _shouldBlur (self w) = true ->
  inputBlurred ev w =
  mkWorld (set_shouldLeftAlign (valueAndNotBlank (_value (self w)))
             (set_isFocused (Some false) (self w)))
    (now w) (next_handle w) (pending w)
    (log w ++ (now w, Emit IonBlur ev) ::
       alignment_effects (now w)
         (set_shouldLeftAlign (valueAndNotBlank (_value (self w)))
            (set_isFocused (Some false) (self w)))).
Proof.
  intros B. unfold inputBlurred. rewrite B.
  cbn [negb]. cbv iota. rewrite setElementLeft_eq.
  cbn [self now next_handle pending log update emit].
  now rewrite <- app_assoc.
Qed.

Lemma inputBlurred_swallowed (ev : Event) (w : World) :
  _shouldBlur (self w) = false ->
  inputBlurred ev w =
  mkWorld (set_shouldBlur true (self w)) (now w) (next_handle w) (pending w)
    (log w ++ [(now w, ElementFocus)]).
Proof.
  intros B. unfold inputBlurred. now rewrite B.
Qed.

Lemma clearInput_value (ev : Event) (w : World) :
  _value (self (clearInput ev w)) =
  if isPresent (_value (self w)) && strict_neq_empty (_value (self w))
  then Str "" else _value (self w).
Proof.
  unfold clearInput. simpl.
  destruct (isPresent (_value (self w)) && strict_neq_empty (_value (self w)));
    reflexivity.
Qed.

Lemma clearInput_cleared (ev : Event) (w : World) :
  cleared (_value (self (clearInput ev w))).
Proof.
  rewrite clearInput_value. unfold cleared.
  destruct (_value (self w)) as [| |b|n|s]; simpl; auto.
  destruct (String.eqb_spec s ""); simpl; subst; auto.
Qed.

Lemma cleared_falsy (v : value) :
  cleared v -> truthy v = false /\ valueAndNotBlank v = v.
Proof.
  unfold valueAndNotBlank.
  intros [H| ->]; [|split; reflexivity].
  destruct v; simpl in H; try discriminate; split; reflexivity.
Qed.

(** X3.  After a clear the value is absent or the empty string, whatever it
    was; so a second clear only emits its clear notification: no second
    input-changed notification, no second call of the change callback. *)
Theorem clearInput_twice (e1 e2 : Event) (w : World) :
  cleared (_value (self (clearInput e1 w))) /\
  truthy (_value (self (clearInput e1 w))) = false /\
  added (clearInput e1 w) (clearInput e2 (clearInput e1 w)) =
    [(now w, Emit IonClear e2)] /\
  _value (self (clearInput e2 (clearInput e1 w))) =
    _value (self (clearInput e1 w)) /\
  (count (is_emit IonInput) (added w (clearInput e2 (clearInput e1 w))) <= 1)%nat.
Proof.
  pose proof (clearInput_cleared e1 w) as C.
  assert (G : isPresent (_value (self (clearInput e1 w))) &&
              strict_neq_empty (_value (self (clearInput e1 w))) = false).
  { destruct C as [C|C]; rewrite C; reflexivity. }
  destruct (clearInput_frame e1 w) as (_ & _ & Hn & _).
  split; [exact C|]. split; [now apply cleared_falsy|].
  split.
  { apply added_app. rewrite (clearInput_log e2), G, Hn. reflexivity. }
  split.
  { now rewrite (clearInput_value e2), G. }
  assert (L : log (clearInput e2 (clearInput e1 w)) = log w ++
     ((now w, Emit IonClear e1) ::
      (if isPresent (_value (self w)) && strict_neq_empty (_value (self w))
       then [(now w, CallOnChange (onChange (self w)) (Str ""));
             (now w, Emit IonInput e1)]
       else [])) ++ [(now w, Emit IonClear e2)]).
  { rewrite (clearInput_log e2), G, Hn, (clearInput_log e1).
    now rewrite <- app_assoc. }
  rewrite (added_app _ _ _ L).
  destruct (isPresent (_value (self w)) && strict_neq_empty (_value (self w)));
    simpl; unfold count; simpl; lia.
Qed.

(** X4.  The suppress-blur flag raised by a clear is used up by one blur:
    the first blur after a clear refocuses the input and emits nothing, the
    second one emits the blur notification and leaves the widget
    unfocused. *)
Theorem clear_suppresses_one_blur (ev b1 b2 : Event) (w : World) :
  let w1 := clearInput ev w in
  let w2 := inputBlurred b1 w1 in
  let w3 := inputBlurred b2 w2 in
  added w1 w2 = [(now w, ElementFocus)] /\
  isFocused (self w2) = isFocused (self w) /\
  shouldLeftAlign (self w2) = shouldLeftAlign (self w) /\
  hd_error (added w2 w3) = Some (now w, Emit IonBlur b2) /\
  count (is_emit IonBlur) (added w1 w3) = 1%nat /\
  isFocused (self w3) = Some false /\
  truthy (shouldLeftAlign (self w3)) = false.
Proof.
  intros w1 w2 w3.
  destruct (clearInput_frame ev w) as (_ & _ & Hn & _ & Hf & Ha).
  fold w1 in Hn, Hf, Ha.
  assert (B : _shouldBlur (self w1) = false).
  { unfold w1, clearInput. simpl.
    destruct (isPresent (_value (self w)) && strict_neq_empty (_value (self w)));
      reflexivity. }
  assert (E2 : w2 = mkWorld (set_shouldBlur true (self w1)) (now w1)
                      (next_handle w1) (pending w1)
                      (log w1 ++ [(now w1, ElementFocus)]))
    by now apply inputBlurred_swallowed.
  pose proof (clearInput_cleared ev w) as C. fold w1 in C.
  apply cleared_falsy in C as [Ct Cv].
  set (s3 := set_shouldLeftAlign (_value (self w1))
               (set_isFocused (Some false) (set_shouldBlur true (self w1)))).
  assert (E3 : w3 = mkWorld s3 (now w1) (next_handle w1) (pending w1)
                      ((log w1 ++ [(now w1, ElementFocus)]) ++
                       (now w1, Emit IonBlur b2) :: alignment_effects (now w1) s3)).
  { unfold w3. rewrite E2, inputBlurred_through by reflexivity.
    cbn [self now next_handle pending log].
    change (_value (set_shouldBlur true (self w1))) with (_value (self w1)).
    now rewrite Cv. }
  assert (A12 : added w1 w2 = [(now w, ElementFocus)])
    by (apply added_app; rewrite E2, Hn; reflexivity).
  assert (A23 : added w2 w3 =
                (now w, Emit IonBlur b2) :: alignment_effects (now w1) s3)
    by (apply added_app; rewrite E3, E2, Hn; reflexivity).
  assert (A13 : added w1 w3 =
                [(now w1, ElementFocus)] ++
                (now w1, Emit IonBlur b2) :: alignment_effects (now w1) s3)
    by (apply added_app; rewrite E3, <- app_assoc; reflexivity).
  split; [exact A12|].
  split; [rewrite E2; exact Hf|].
  split; [rewrite E2; exact Ha|].
  split; [now rewrite A23|].
  split.
  { rewrite A13.
    change (S (count (is_emit IonBlur) (alignment_effects (now w1) s3)) = 1%nat).
    now rewrite alignment_effects_no_emit. }
  split; [now rewrite E3|].
  rewrite E3. exact Ct.
Qed.

(** X5.  A cancel leaves nothing to suppress: the blur that follows it
    emits the blur notification at once, the widget is unfocused, the value
    is absent or empty and [shouldLeftAlign] is falsy. *)
Theorem cancel_then_blur (ev b : Event) (w : World) :
  let w1 := cancelSearchbar ev w in
  let w2 := inputBlurred b w1 in
  hd_error (added w1 w2) = Some (now w, Emit IonBlur b) /\
  count (is_emit IonBlur) (added w1 w2) = 1%nat /\
  isFocused (self w2) = Some false /\
  cleared (_value (self w2)) /\
  truthy (shouldLeftAlign (self w2)) = false.
Proof.
  intros w1 w2.
  set (w0 := emit (Emit IonCancel ev) w).
  assert (E1 : w1 = update (set_shouldBlur true) (clearInput ev w0)) by reflexivity.
  pose proof (clearInput_cleared ev w0) as C.
  destruct (clearInput_frame ev w0) as (_ & _ & Hn & _).
  change (now w0) with (now w) in Hn.
  assert (V1 : _value (self w1) = _value (self (clearInput ev w0)))
    by (rewrite E1; reflexivity).
  assert (N1 : now w1 = now w) by (rewrite E1; exact Hn).
  rewrite <- V1 in C. destruct (cleared_falsy _ C) as [Ct Cv].
  set (s2 := set_shouldLeftAlign (_value (self w1))
               (set_isFocused (Some false) (self w1))).
  assert (E2 : w2 = mkWorld s2 (now w) (next_handle w1) (pending w1)
                      (log w1 ++ (now w, Emit IonBlur b) ::
                         alignment_effects (now w) s2)).
  { unfold w2. rewrite inputBlurred_through by (rewrite E1; reflexivity).
    now rewrite Cv, N1. }
  assert (A : added w1 w2 =
              (now w, Emit IonBlur b) :: alignment_effects (now w) s2)
    by (apply added_app; rewrite E2; reflexivity).
  rewrite A. split; [reflexivity|].
  split.
  { change (S (count (is_emit IonBlur) (alignment_effects (now w) s2)) = 1%nat).
    now rewrite alignment_effects_no_emit. }
  rewrite E2. split; [reflexivity|]. split; [exact C | exact Ct].
Qed.

(* ================================================================== *)
(** ** Initialisation and focus *)

(** X6.  Mounting computes [shouldLeftAlign] from the bound value the way a
    blur does, leaves the widget neither focused nor waiting for a timer,
    and styles the elements only in the ios mode: the placeholder is centred
    when the value is falsy or blank, the inline styles are removed
    otherwise. *)
Theorem mount_alignment (m : string) (i : Inputs) :
  let w := mount m i in
  shouldLeftAlign (self w) = valueAndNotBlank (in_value i) /\
  truthy (shouldLeftAlign (self w)) =
    truthy (in_value i) && present_and_not_blank (in_value i) /\
  isFocused (self w) = None /\
  _shouldBlur (self w) = true /\
  pending w = [] /\
  log w =
    (if String.eqb m "ios"
     then if truthy (in_value i) && present_and_not_blank (in_value i)
          then [(0, RemoveAttributeStyle InputEle); (0, RemoveAttributeStyle IconEle)]
          else [(0, AddElementLeft (in_placeholder i))]
     else []).
Proof.
  intros w.
  assert (E : ngOnInit m (bind i new_World) =
    mkWorld (mkSearchbar (in_value i) None true (Some m) (in_debounce i)
               (in_placeholder i) None (valueAndNotBlank (in_value i)) 0 0)
      0 1 [] []) by reflexivity.
  unfold w, mount, ngAfterViewInit. rewrite setElementLeft_eq, E. clear E.
  rewrite <- valueAndNotBlank_truthy.
  set (v := valueAndNotBlank (in_value i)).
  unfold alignment_effects.
  cbn [self now next_handle pending log shouldLeftAlign isFocused _shouldBlur
       mode placeholder mode_is_not_ios app].
  repeat (split; [reflexivity|]).
  destruct (String.eqb m "ios"); reflexivity.
Qed.

(** X7.  A focus emits one focus notification before anything else, sets
    [isFocused] and [shouldLeftAlign] to [true] whatever the value, never
    centres the placeholder, and leaves the value, the suppress-blur flag
    and the timer table alone; a second focus changes no field. *)
Theorem inputFocused_effect (e1 e2 : Event) (w : World) :
  let w' := inputFocused e1 w in
  hd_error (added w w') = Some (now w, Emit IonFocus e1) /\
  count (is_emit IonFocus) (added w w') = 1%nat /\
  count is_style (added w w') =
    (if mode_is_not_ios (mode (self w)) then 0 else 2)%nat /\
  (forall p, ~ In (now w, AddElementLeft p) (added w w')) /\
  self w' = set_shouldLeftAlign (Boolean true) (set_isFocused (Some true) (self w)) /\
  pending w' = pending w /\
  self (inputFocused e2 w') = self w'.
Proof.
  intros w'.
  assert (E : forall e v, inputFocused e v =
    mkWorld (set_shouldLeftAlign (Boolean true) (set_isFocused (Some true) (self v)))
      (now v) (next_handle v) (pending v)
      (log v ++ (now v, Emit IonFocus e) ::
         alignment_effects (now v)
           (set_shouldLeftAlign (Boolean true)
              (set_isFocused (Some true) (self v))))).
  { intros e v. unfold inputFocused. rewrite setElementLeft_eq.
    cbn [self now next_handle pending log update emit].
    now rewrite <- app_assoc. }
  assert (A : added w w' = (now w, Emit IonFocus e1) ::
     alignment_effects (now w)
       (set_shouldLeftAlign (Boolean true) (set_isFocused (Some true) (self w))))
    by (apply added_app; unfold w'; rewrite E; reflexivity).
  rewrite A. unfold w'. rewrite !E.
  unfold alignment_effects.
  cbn [mode set_shouldLeftAlign set_isFocused shouldLeftAlign truthy self pending].
  destruct (mode_is_not_ios (mode (self w))).
  - repeat split. intros p [H|[]]. discriminate.
  - repeat split. intros p [H|[H|[H|[]]]]; discriminate.
Qed.

(* ================================================================== *)
(** ** Attributes and the cancel button *)

(** X8.  [ngOnInit] turns a string [hideCancelButton] into a boolean that is
    [true] exactly for the empty string and for ["true"], so the result is
    never a string, other values are kept, and a second pass changes
    nothing. *)
Theorem ngOnInit_hideCancelButton_normalises (h : value) :
  (forall s, ngOnInit_hideCancelButton h <> Str s) /\
  ngOnInit_hideCancelButton (ngOnInit_hideCancelButton h) =
    ngOnInit_hideCancelButton h /\
  (forall s, ngOnInit_hideCancelButton (Str s) = Boolean true <->
             (s = "" \/ s = "true")) /\
  (forall s, exists b, ngOnInit_hideCancelButton (Str s) = Boolean b) /\
  ((forall s, h <> Str s) -> ngOnInit_hideCancelButton h = h).
Proof.
  split; [destruct h; discriminate|].
  split; [destruct h; reflexivity|].
  split.
  { intros s. simpl. split.
    - intros H. injection H as H1. apply orb_true_iff in H1 as [H1|H1];
        apply String.eqb_eq in H1; auto.
    - intros [->| ->]; reflexivity. }
  split; [intros s; simpl; eauto|].
  intros H. destruct h; try reflexivity. now destruct (H s).
Qed.

Lemma is_string_spec (a : option string) (s : string) :
  is_string a s = true <-> a = Some s.
Proof.
  destruct a as [x|]; simpl; [|split; discriminate].
  rewrite String.eqb_eq. split; congruence.
Qed.

(** X9.  The input element gets its four attributes in the order
    autocomplete, autocorrect, spellcheck, type.  An [autocomplete] (or
    [autocorrect]) input of [''] or ['on'] gives ['on'] whatever the
    configuration says; any other input, an explicit ['off'] included,
    leaves the decision to the configuration.  [spellcheck] is always set to
    a boolean, [true] for the inputs [''], ['true'] and [true], and [type]
    is passed through. *)
Theorem searchbarInput_attributes (config : Config) (a : Attributes) :
  let calls := _searchbarInput config a in
  map (fun c => match c with SetAttribute n _ => n end) calls =
    ["autocomplete"; "autocorrect"; "spellcheck"; "type"] /\
  attribute "type" calls = Some (Str (type a)) /\
  (exists b, attribute "spellcheck" calls = Some (Boolean b)) /\
  (spellcheck a = Str "" \/ spellcheck a = Str "true" \/
   spellcheck a = Boolean true ->
   attribute "spellcheck" calls = Some (Boolean true)) /\
  (autocomplete a = Some "" \/ autocomplete a = Some "on" ->
   attribute "autocomplete" calls = Some (Str "on")) /\
  (autocomplete a <> Some "" -> autocomplete a <> Some "on" ->
   attribute "autocomplete" calls = Some (get config "autocomplete" (Str "off"))) /\
  (autocorrect a = Some "" \/ autocorrect a = Some "on" ->
   attribute "autocorrect" calls = Some (Str "on")) /\
  (autocorrect a <> Some "" -> autocorrect a <> Some "on" ->
   attribute "autocorrect" calls = Some (get config "autocorrect" (Str "off"))).
Proof.
  intros calls. unfold calls, _searchbarInput.
  assert (On : forall x, x = Some "" \/ x = Some "on" ->
                 is_string x "" || is_string x "on" = true).
  { intros x [->| ->]; reflexivity. }
  assert (Off : forall x, x <> Some "" -> x <> Some "on" ->
                  is_string x "" || is_string x "on" = false).
  { intros x H1 H2. apply orb_false_iff. split;
      (destruct (is_string x _) eqn:E; [apply is_string_spec in E; congruence
                                       | reflexivity]). }
  split; [reflexivity|]. split; [reflexivity|].
  split; [eexists; reflexivity|].
  split.
  { intros [H|[H|H]]; rewrite H; reflexivity. }
  split; [intros H; simpl; now rewrite (On _ H)|].
  split; [intros H1 H2; simpl; now rewrite (Off _ H1 H2)|].
  split; [intros H; simpl; now rewrite (On _ H)|].
  intros H1 H2; simpl; now rewrite (Off _ H1 H2).
Qed.

Lemma searchbarInput_attributes_witness :
  let config := mkConfig (fun _ _ => Str "on") (fun _ fallback => fallback) in
  let a := mkAttributes (Some "off") None (Str "true") "search" in
  autocomplete a <> Some "" /\ autocomplete a <> Some "on" /\
  attribute "autocomplete" (_searchbarInput config a) = Some (Str "on") /\
  attribute "spellcheck" (_searchbarInput config a) = Some (Boolean true).
Proof.
  intros config a.
  assert (H1 : autocomplete a <> Some "") by discriminate.
  assert (H2 : autocomplete a <> Some "on") by discriminate.
  destruct (searchbarInput_attributes config a)
    as (_ & _ & _ & Sp & _ & Ac & _).
  split; [exact H1|]. split; [exact H2|].
  split; [exact (Ac H1 H2)|].
  apply Sp. right. left. reflexivity.
Defined.

(* ================================================================== *)
(** ** The delay *)

Lemma Math_round_bounds (x : Q) :
  x - (1 # 2) < inject_Z (Math_round x) /\ inject_Z (Math_round x) <= x + (1 # 2).
Proof.
  unfold Math_round.
  pose proof (Qfloor_le (x + (1 # 2))) as L.
  pose proof (Qlt_floor (x + (1 # 2))) as U.
  rewrite inject_Z_plus in U. change (inject_Z 1) with 1 in U.
  split; lra.
Qed.

Lemma delay_cases (w : World) :
  timeout_in_range w ->
  (debounce (self w) < 1 # 2 -> delay w = 0) /\
  (1 # 2 <= debounce (self w) ->
   debounce (self w) - (1 # 2) < delay w /\ delay w <= debounce (self w) + (1 # 2)) /\
  (forall n, (0 <= n)%Z -> debounce (self w) == inject_Z n -> delay w = inject_Z n).
Proof.
  intros Rg. rewrite (delay_in_range w Rg).
  destruct (Math_round_bounds (debounce (self w))) as [L U].
  split; [|split].
  - intros H.
    assert (Z : (Math_round (debounce (self w)) < 1)%Z).
    { rewrite Zlt_Qlt. change (inject_Z 1) with 1. lra. }
    replace (Z.max 0 (Math_round (debounce (self w)))) with 0%Z by lia.
    reflexivity.
  - intros H.
    assert (Z : (0 <= Math_round (debounce (self w)))%Z).
    { assert (Z' : (0 < Math_round (debounce (self w)) + 1)%Z).
      { rewrite Zlt_Qlt. rewrite inject_Z_plus.
        change (inject_Z 1) with 1. change (inject_Z 0) with 0. lra. }
      lia. }
    replace (Z.max 0 (Math_round (debounce (self w))))
      with (Math_round (debounce (self w))) by lia.
    split; assumption.
  - intros n Hn E.
    assert (R : Math_round (debounce (self w)) = n).
    { assert (A : (n < Math_round (debounce (self w)) + 1)%Z).
      { rewrite Zlt_Qlt. rewrite inject_Z_plus. change (inject_Z 1) with 1. lra. }
      assert (B : (Math_round (debounce (self w)) < n + 1)%Z).
      { rewrite Zlt_Qlt. rewrite inject_Z_plus. change (inject_Z 1) with 1. lra. }
      lia. }
    rewrite R. f_equal. lia.
Qed.

(** X10.  When [Math.round(debounce)] fits a signed 32-bit integer, the
    one timer [inputChanged] leaves pending is due [debounce] rounded to the
    nearest integer after the event: exactly [debounce] later for a
    non-negative integer, within half a millisecond of that from 0.5 up, and
    at once for every [debounce] below 0.5, negative ones included. *)
Theorem inputChanged_due_time (ev : Event) (w : World) :
  reachable w ->
  timeout_in_range w ->
  exists tm,
    pending (inputChanged ev w) = [tm] /\
    captured_value tm = target_value ev /\
    captured_ev tm = ev /\
    (debounce (self w) < 1 # 2 -> due tm = now w + 0) /\
    (1 # 2 <= debounce (self w) ->
     now w + (debounce (self w) - (1 # 2)) < due tm /\
     due tm <= now w + (debounce (self w) + (1 # 2))) /\
    (forall n, (0 <= n)%Z -> debounce (self w) == inject_Z n ->
       due tm = now w + inject_Z n).
Proof.
  intros R Rg.
  destruct (delay_cases w Rg) as (Z & B & I).
  exists (mkTimer (next_handle w) (now w + delay w) (target_value ev) ev).
  rewrite inputChanged_eq by now apply reachable_inv.
  split; [reflexivity|]. split; [reflexivity|]. split; [reflexivity|].
  cbn [due]. split; [|split].
  - intros H. now rewrite (Z H).
  - intros H. destruct (B H) as [L U]. split; lra.
  - intros n Hn E. now rewrite (I n Hn E).
Qed.

Lemma inputChanged_due_time_witness :
  let w := mount "md" default_inputs in
  reachable w /\
  timeout_in_range w /\
  (0 <= 250)%Z /\
  debounce (self w) == inject_Z 250 /\
  exists tm,
    pending (inputChanged (key 1 "a") w) = [tm] /\
    due tm = now w + inject_Z 250.
Proof.
  assert (R : reachable (mount "md" default_inputs)) by apply reach_mount.
  assert (Rg : timeout_in_range (mount "md" default_inputs))
    by (vm_compute; split; [discriminate | reflexivity]).
  assert (P : (0 <= 250)%Z) by lia.
  assert (E : debounce (self (mount "md" default_inputs)) == inject_Z 250)
    by reflexivity.
  destruct (inputChanged_due_time (key 1 "a") _ R Rg)
    as (tm & Hp & _ & _ & _ & _ & I).
  split; [exact R|]. split; [exact Rg|]. split; [exact P|]. split; [exact E|].
  exists tm. split; [exact Hp | exact (I 250%Z P E)].
Defined.

(* ================================================================== *)
(** ** What every action and every tick adds to the log *)

Lemma count_app (p : Q * Effect -> bool) (l k : list (Q * Effect)) :
  count p (l ++ k) = (count p l + count p k)%nat.
Proof.
  unfold count. now rewrite filter_app, length_app.
Qed.

Lemma alignment_effects_no_call (t : Q) (s : Searchbar) :
  count is_commit (alignment_effects t s) = 0%nat.
Proof.
  unfold alignment_effects.
  destruct (mode_is_not_ios (mode s)); [reflexivity|].
  destruct (truthy (shouldLeftAlign s)); reflexivity.
Qed.

Lemma alignment_effects_not_ios (t : Q) (s : Searchbar) :
  mode_is_not_ios (mode s) = true -> alignment_effects t s = [].
Proof.
  unfold alignment_effects. now intros ->.
Qed.

Lemma inputFocused_eq (ev : Event) (w : World) :
  inputFocused ev w =
  mkWorld (set_shouldLeftAlign (Boolean true) (set_isFocused (Some true) (self w)))
    (now w) (next_handle w) (pending w)
    (log w ++ (now w, Emit IonFocus ev) ::
       alignment_effects (now w)
         (set_shouldLeftAlign (Boolean true) (set_isFocused (Some true) (self w)))).
Proof.
  unfold inputFocused. rewrite setElementLeft_eq.
  cbn [self now next_handle pending log update emit].
  now rewrite <- app_assoc.
Qed.

Lemma quiet_nil (m : option string) (n : nat) : quiet_stretch m n [].
Proof.
  repeat split. unfold count. simpl. lia.
Qed.

Lemma quiet_alignment (m : option string) (n : nat) (x : Q * Effect)
    (t : Q) (s : Searchbar) :
  mode s = m ->
  is_commit x = false -> is_emit IonInput x = false -> is_style x = false ->
  quiet_stretch m n (x :: alignment_effects t s).
Proof.
  intros <- C I S.
  change (x :: alignment_effects t s) with ([x] ++ alignment_effects t s).
  unfold quiet_stretch. rewrite !count_app.
  rewrite alignment_effects_no_call, alignment_effects_no_emit.
  unfold count. simpl. rewrite C, I, S. simpl.
  split; [reflexivity|]. split; [lia|].
  intros H. now rewrite (alignment_effects_not_ios _ _ H).
Qed.

Lemma step_added (a : Action) (w : World) :
  exists l,
    log (step a w) = log w ++ l /\
    mode (self (step a w)) = mode (self w) /\
    quiet_stretch (mode (self w))
      (match a with ClearInput _ | CancelSearchbar _ => 1 | _ => 0 end) l.
Proof.
  destruct a; simpl step.
  - exists []. unfold inputChanged, setTimeout, clearTimeout.
    destruct (_tmr (self w)); simpl; rewrite app_nil_r;
      auto using quiet_nil.
  - rewrite inputFocused_eq. eexists. split; [reflexivity|].
    split; [reflexivity|]. now apply quiet_alignment.
  - destruct (_shouldBlur (self w)) eqn:B.
    + rewrite inputBlurred_through by assumption. eexists.
      split; [reflexivity|]. split; [reflexivity|]. now apply quiet_alignment.
    + rewrite inputBlurred_swallowed by assumption. eexists.
      split; [reflexivity|]. split; [reflexivity|]. repeat split.
      unfold count. simpl. lia.
  - eexists. split; [apply clearInput_log|]. unfold clearInput. simpl.
    destruct (isPresent (_value (self w)) && strict_neq_empty (_value (self w)));
      repeat split; unfold count; simpl; lia.
  - unfold cancelSearchbar, clearInput. simpl.
    destruct (isPresent (_value (self w)) && strict_neq_empty (_value (self w)));
      simpl; rewrite <- ?app_assoc; eexists;
      (split; [reflexivity|]); repeat split; unfold count; simpl; lia.
  - exists []. simpl. rewrite app_nil_r. auto using quiet_nil.
  - exists []. simpl. rewrite app_nil_r. auto using quiet_nil.
  - exists []. simpl. rewrite app_nil_r. auto using quiet_nil.
  - exists []. simpl. rewrite app_nil_r. auto using quiet_nil.
  - exists []. simpl. rewrite app_nil_r. auto using quiet_nil.
  - exists []. simpl. rewrite app_nil_r. auto using quiet_nil.
  - exists []. unfold destroy, ngOnDestroy. rewrite app_nil_r.
    auto using quiet_nil.
Qed.

Lemma advance_added (t : Q) (w : World) :
  timer_inv w ->
  exists l,
    log (advance t w) = log w ++ l /\
    mode (self (advance t w)) = mode (self w) /\
    quiet_stretch (mode (self w)) 1 l /\
    (count (is_emit IonInput) l + List.length (pending (advance t w)) =
     List.length (pending w))%nat.
Proof.
  unfold timer_inv. intros I.
  destruct (pending w) as [|tm [|tm' k]] eqn:E; [| |contradiction].
  - rewrite advance_empty by assumption. exists []. simpl.
    rewrite app_nil_r. auto using quiet_nil.
  - destruct (Qlt_le_dec t (due tm)) as [L|L].
    + rewrite (advance_not_due _ _ _ E L). exists []. simpl.
      rewrite app_nil_r. auto using quiet_nil.
    + rewrite (advance_due _ _ _ E L). eexists. split; [reflexivity|].
      split; [reflexivity|]. repeat split; unfold count; simpl; lia.
Qed.

Lemma mount_log (m : string) (i : Inputs) :
  mode (self (mount m i)) = Some m /\
  pending (mount m i) = [] /\
  quiet_stretch (Some m) 0 (log (mount m i)).
Proof.
  unfold mount, ngAfterViewInit. rewrite setElementLeft_eq. simpl.
  split; [reflexivity|]. split; [reflexivity|].
  unfold quiet_stretch.
  rewrite alignment_effects_no_call, alignment_effects_no_emit.
  split; [reflexivity|]. split; [lia|].
  intros H. now rewrite alignment_effects_not_ios.
Qed.

Lemma reachable_mode (w : World) :
  reachable w -> exists m, mode (self w) = Some m.
Proof.
  induction 1 as [m i | a w R [m IH] | t w R [m IH]].
  - exists m. apply mount_log.
  - exists m. destruct (step_added a w) as (l & _ & -> & _). exact IH.
  - exists m.
    destruct (advance_added t w (reachable_inv w R)) as (l & _ & -> & _).
    exact IH.
Qed.

(** X11.  The mode is fixed at mount, and outside the ios mode the widget
    never styles its elements: in every reachable state the log holds no
    [removeAttribute('style')] and no centring of the placeholder. *)
Theorem no_styling_outside_ios (w : World) :
  reachable w ->
  mode_is_not_ios (mode (self w)) = true ->
  (exists m, mode (self w) = Some m /\ m <> "ios") /\
  count is_style (log w) = 0%nat.
Proof.
  intros R H. split.
  - destruct (reachable_mode w R) as [m Hm]. exists m. split; [exact Hm|].
    rewrite Hm in H. simpl in H. intros ->. discriminate.
  - induction R as [m i | a w R IH | t w R IH].
    + destruct (mount_log m i) as (Hm & _ & _ & _ & S).
      rewrite Hm in H. now apply S.
    + destruct (step_added a w) as (l & -> & Hm & _ & _ & S).
      rewrite Hm in H. rewrite count_app, (IH H), (S H). reflexivity.
    + destruct (advance_added t w (reachable_inv w R))
        as (l & -> & Hm & (_ & _ & S) & _).
      rewrite Hm in H. rewrite count_app, (IH H), (S H). reflexivity.
Qed.

Lemma no_styling_outside_ios_witness :
  let w := run [(0, InputFocused a_click); (10 # 1, InputBlurred a_click)]
             (mount "md" default_inputs) in
  reachable w /\
  mode_is_not_ios (mode (self w)) = true /\
  count is_style (log w) = 0%nat.
Proof.
  assert (R : reachable
    (run [(0, InputFocused a_click); (10 # 1, InputBlurred a_click)]
       (mount "md" default_inputs))) by (apply run_reachable, reach_mount).
  assert (H : mode_is_not_ios (mode (self
    (run [(0, InputFocused a_click); (10 # 1, InputBlurred a_click)]
       (mount "md" default_inputs)))) = true) by reflexivity.
  destruct (no_styling_outside_ios _ R H) as (_ & C).
  split; [exact R|]. split; [exact H | exact C].
Defined.

Lemma log_paired (w : World) :
  reachable w ->
  count is_commit (log w) = count (is_emit IonInput) (log w).
Proof.
  induction 1 as [m i | a w R IH | t w R IH].
  - apply mount_log.
  - destruct (step_added a w) as (l & -> & _ & P & _).
    now rewrite !count_app, IH, P.
  - destruct (advance_added t w (reachable_inv w R)) as (l & -> & _ & (P & _) & _).
    now rewrite !count_app, IH, P.
Qed.

(** X12.  The form and the listeners stay in step: in every reachable state
    the change callback has been called exactly as often as input-changed
    has been emitted, and after any further action or wait this is still
    so. *)
Theorem onChange_paired_with_ionInput (w : World) :
  reachable w ->
  count is_commit (log w) = count (is_emit IonInput) (log w) /\
  (forall a, count is_commit (added w (step a w)) =
             count (is_emit IonInput) (added w (step a w))) /\
  (forall t, count is_commit (added w (advance t w)) =
             count (is_emit IonInput) (added w (advance t w))).
Proof.
  intros R. split; [now apply log_paired|]. split.
  - intros a. destruct (step_added a w) as (l & L & _ & P & _).
    now rewrite (added_app _ _ _ L).
  - intros t.
    destruct (advance_added t w (reachable_inv w R)) as (l & L & _ & (P & _) & _).
    now rewrite (added_app _ _ _ L).
Qed.

Lemma onChange_paired_with_ionInput_witness :
  let w := advance (1000 # 1)
             (run [(0, InputChanged (key 1 "a")); (300 # 1, ClearInput a_click)]
                (mount "md" default_inputs)) in
  reachable w /\
  count is_commit (log w) = 2%nat /\
  count is_commit (log w) = count (is_emit IonInput) (log w).
Proof.
  assert (R : reachable (advance (1000 # 1)
             (run [(0, InputChanged (key 1 "a")); (300 # 1, ClearInput a_click)]
                (mount "md" default_inputs))))
    by (apply reach_advance, run_reachable, reach_mount).
  split; [exact R|]. split; [reflexivity|].
  exact (proj1 (onChange_paired_with_ionInput _ R)).
Defined.

(* ================================================================== *)
(** ** How often input-changed is emitted *)

Lemma step_budget (a : Action) (t : Q) (w : World) :
  timer_inv w ->
  (count (is_emit IonInput) (log (step a w)) + List.length (pending (step a w)) <=
   count (is_emit IonInput) (log w) + List.length (pending w) +
   (if may_emit_input (t, a) then 1 else 0))%nat.
Proof.
  intros I.
  destruct (step_added a w) as (l & L & _ & _ & B & _). rewrite L, count_app.
  destruct a;
    try (match goal with
         | |- context [step ?a w] =>
             destruct (step_frame a w ltac:(intros ?; discriminate)) as (-> & _)
         end; simpl; lia).
  simpl step. rewrite inputChanged_eq by assumption. simpl. lia.
Qed.

Lemma advance_budget (t : Q) (w : World) :
  timer_inv w ->
  (count (is_emit IonInput) (log (advance t w)) + List.length (pending (advance t w)) =
   count (is_emit IonInput) (log w) + List.length (pending w))%nat.
Proof.
  intros I. destruct (advance_added t w I) as (l & -> & _ & _ & B).
  rewrite count_app. lia.
Qed.

Lemma run_budget (sched : list (Q * Action)) (w : World) :
  timer_inv w ->
  timer_inv (run sched w) /\
  (count (is_emit IonInput) (log (run sched w)) +
   List.length (pending (run sched w)) <=
   count (is_emit IonInput) (log w) + List.length (pending w) +
   List.length (filter may_emit_input sched))%nat.
Proof.
  revert w. induction sched as [|[t a] r IH]; intros w I; simpl run.
  - split; [assumption | simpl; lia].
  - pose proof (advance_inv t w I) as I1.
    pose proof (step_inv a _ I1) as I2.
    destruct (IH _ I2) as (I3 & B). split; [exact I3|].
    pose proof (step_budget a t _ I1) as S.
    pose proof (advance_budget t w I) as A.
    simpl fst in B. simpl snd in B.
    change (filter may_emit_input ((t, a) :: r))
      with (if may_emit_input (t, a) then (t, a) :: filter may_emit_input r
            else filter may_emit_input r).
    destruct (may_emit_input (t, a)); simpl List.length; lia.
Qed.

(** X13.  Input-changed is never emitted more often than the user typed,
    cleared or cancelled: after any schedule of actions on a mounted widget
    and any wait, the number of input-changed notifications (and of calls of
    the change callback) is at most the number of typing, clear and cancel
    actions in the schedule. *)
Theorem ionInput_at_most_once_per_action (m : string) (i : Inputs)
    (sched : list (Q * Action)) (T : Q) :
  let w := advance T (run sched (mount m i)) in
  (count (is_emit IonInput) (log w) <= List.length (filter may_emit_input sched))%nat /\
  (count is_commit (log w) <= List.length (filter may_emit_input sched))%nat.
Proof.
  intros w.
  destruct (mount_log m i) as (_ & P & _ & Z & _).
  destruct (run_budget sched (mount m i) (mount_inv m i)) as (I & B).
  pose proof (advance_budget T _ I) as A. fold w in A.
  rewrite P in B. simpl in B.
  assert (R : reachable w)
    by (apply reach_advance, run_reachable, reach_mount).
  rewrite (log_paired w R). lia.
Qed.

(* ================================================================== *)
(** ** Events that are far enough apart *)





Lemma ngOnInit_hideCancelButton_normalises_witness :
  (forall s, Boolean false <> Str s) /\
  ngOnInit_hideCancelButton (Boolean false) = Boolean false /\
  ngOnInit_hideCancelButton (Str "") = Boolean true /\
  ngOnInit_hideCancelButton (Str "false") <> Boolean true.
Proof.
  assert (H : forall s, Boolean false <> Str s) by (intros s; discriminate).
  destruct (ngOnInit_hideCancelButton_normalises (Boolean false))
    as (_ & _ & T & _ & K).
  split; [exact H|]. split; [exact (K H)|].
  split; [apply (proj2 (T "")); left; reflexivity|].
  intros E. apply (proj1 (T "false")) in E. destruct E; discriminate.
Defined.
